(** * The api-server websocket hub of pear-desktop

    A shallow embedding of
    [src/plugins/api-server/backend/routes/websocket.ts]: the lyric
    normaliser [normalizeLyric], the player-state snapshot
    [createPlayerState], the fan-out [send], the IPC and song-info handlers,
    the websocket [onOpen]/[onClose] hooks and the [/lyrics/current] route.

    Conventions.
    - A JavaScript number is an IEEE-754 binary64 value: Rocq's primitive
      [float].  The program never does arithmetic on numbers; it coerces,
      tests [isNaN], compares with [0] and passes them on.
    - A JavaScript string is its sequence of UTF-16 code units.
    - The closure variables of [register] form the record [Hub]; the
      websocket transport (what each connection has received, and whether a
      connection's [send] throws) and the renderer are the rest of [World].
    - A message is kept as the object handed to [JSON.stringify], not as the
      serialised text.
    - The engine's conversions between strings and numbers are a parameter,
      the class [Engine]; every property holds for all engines. *)

From Stdlib Require Import List Bool NArith ZArith Arith Lia String Ascii.
From Stdlib Require Import Floats.PrimFloat Numbers.Cyclic.Int63.Uint63.
From Stdlib Require ListSet.
Import ListNotations.

Set Implicit Arguments.
Set Warnings "-register-all".

(** ** Strings *)

Definition jsstring := list N.

(** A source-text literal, one code unit per character. *)
Definition lit (s : string) : jsstring :=
  List.map N_of_ascii (list_ascii_of_string s).

Fixpoint str_eqb (a b : jsstring) : bool :=
  match a, b with
  | [], [] => true
  | x :: a', y :: b' => N.eqb x y && str_eqb a' b'
  | _, _ => false
  end.

(** ECMA-262 WhiteSpace and LineTerminator code points, all of them in the
    basic plane: what [String.prototype.trim] strips. *)
Definition isWhiteSpace (c : N) : bool :=
  (N.leb 9 c && N.leb c 13)          (* TAB LF VT FF CR *)
  || N.eqb c 32                      (* SP *)
  || N.eqb c 160                     (* NBSP *)
  || N.eqb c 5760                    (* U+1680 *)
  || (N.leb 8192 c && N.leb c 8202)  (* U+2000 .. U+200A *)
  || N.eqb c 8232 || N.eqb c 8233    (* LS PS *)
  || N.eqb c 8239                    (* U+202F *)
  || N.eqb c 8287                    (* U+205F *)
  || N.eqb c 12288                   (* U+3000 *)
  || N.eqb c 65279.                  (* U+FEFF *)

Fixpoint trimStart (s : jsstring) : jsstring :=
  match s with
  | c :: r => if isWhiteSpace c then trimStart r else s
  | [] => []
  end.

Definition trimEnd (s : jsstring) : jsstring := rev (trimStart (rev s)).

(** [s.trim()] *)
Definition trim (s : jsstring) : jsstring := trimEnd (trimStart s).

(** [s.split(re)] for a regular expression [re] that matches exactly one code
    unit, the ones [sep] accepts: every separator ends a segment, empty
    segments are kept, and the empty string yields one empty segment. *)
Fixpoint split (sep : N -> bool) (s : jsstring) : list jsstring :=
  match s with
  | [] => [[]]
  | c :: r =>
      if sep c then [] :: split sep r
      else match split sep r with
           | seg :: segs => (c :: seg) :: segs
           | [] => [[c]]
           end
  end.

(** The character class of the regular expression [/[&,]/]. *)
Definition ampersand_or_comma (c : N) : bool := N.eqb c 38 || N.eqb c 44.

(** A string is truthy when it is not empty. *)
Definition str_truthy (s : jsstring) : bool :=
  match s with [] => false | _ => true end.

(** ** Values of type [any]

    What an IPC payload can be once it has crossed the process boundary:
    JSON-shaped data, with [undefined].  An object is its list of own
    properties, of any name ([toString] and [valueOf] included); a property
    name is looked up from the front. *)
Inductive value : Type :=
| VUndefined
| VNull
| VBoolean (b : bool)
| VNumber (n : float)
| VString (s : jsstring)
| VArray (elems : list value)
| VObject (props : list (jsstring * value)).

Fixpoint lookup (k : jsstring) (props : list (jsstring * value)) : option value :=
  match props with
  | [] => None
  | (k', v) :: r => if str_eqb k k' then Some v else lookup k r
  end.

(** [v?.k] for the property names this file reads ([index], [line], [text],
    [lyrics], [timeInMs], [time], [duration], [timestamp], [provider],
    [romanized]): [undefined] on [undefined] and [null] by the optional chain,
    and [undefined] on a primitive or an array and for a name an object does
    not own, no prototype defining any of these names. *)
Definition get (v : value) (k : string) : value :=
  match v with
  | VObject props =>
      match lookup (lit k) props with
      | Some x => x
      | None => VUndefined
      end
  | _ => VUndefined
  end.

Definition nullish (v : value) : bool :=
  match v with
  | VUndefined | VNull => true
  | _ => false
  end.

(** [a ?? b] *)
Definition coalesce (a b : value) : value := if nullish a then b else a.

Declare Scope js_scope.
Delimit Scope js_scope with js.
Notation "a ?? b" := (coalesce a b) (at level 45, right associativity) : js_scope.
Local Open Scope js_scope.

(** The result of [typeof]. *)
Inductive jstype : Type :=
| TypeUndefined | TypeObject | TypeBoolean | TypeNumber | TypeString.

Definition typeof (v : value) : jstype :=
  match v with
  | VUndefined => TypeUndefined
  | VNull | VArray _ | VObject _ => TypeObject
  | VBoolean _ => TypeBoolean
  | VNumber _ => TypeNumber
  | VString _ => TypeString
  end.

Definition jstype_eqb (a b : jstype) : bool :=
  match a, b with
  | TypeUndefined, TypeUndefined | TypeObject, TypeObject
  | TypeBoolean, TypeBoolean | TypeNumber, TypeNumber
  | TypeString, TypeString => true
  | _, _ => false
  end.

(** ** The engine's numeric conversions

    [Number(s)] on a string and [String(n)] on a number are the engine's
    StringToNumber and Number::toString algorithms (ECMA-262 7.1.4.1.1 and
    6.1.6.1.20).  The development is parametric in them. *)
Class Engine : Type := {
  StringToNumber : jsstring -> float;
  NumberToString : float -> jsstring
}.

(** ** Coercions

    [String(v)] and [Number(v)] throw a TypeError on some values; the result
    is then [None].  A payload holds no function, so an own property named
    [toString] or [valueOf] is never callable.  Converting a plain object to a
    primitive tries [toString] and [valueOf], own before inherited: the
    inherited [valueOf] returns the object itself, which is no primitive, and
    the inherited [toString] returns [[object Object]].  With either hint the
    conversion therefore throws exactly when the object has an own property
    [toString], and yields [[object Object]] otherwise. *)

(** The object has an own property [k]. *)
Definition hasOwn (k : string) (props : list (jsstring * value)) : bool :=
  match lookup (lit k) props with
  | Some _ => true
  | None => false
  end.

Section Coercions.
Context {engine : Engine}.

(** [String(v)].  An array joins its elements with a comma, [undefined] and
    [null] elements giving the empty string and every other element being
    converted in turn. *)
Fixpoint ToString (v : value) : option jsstring :=
  match v with
  | VUndefined => Some (lit "undefined")
  | VNull => Some (lit "null")
  | VBoolean true => Some (lit "true")
  | VBoolean false => Some (lit "false")
  | VNumber n => Some (NumberToString n)
  | VString s => Some s
  | VArray elems =>
      (fix join (l : list value) : option jsstring :=
         match l with
         | [] => Some []
         | x :: r =>
             match (if nullish x then Some [] else ToString x) with
             | None => None
             | Some sx =>
                 match r with
                 | [] => Some sx
                 | _ :: _ =>
                     match join r with
                     | None => None
                     | Some sr => Some (sx ++ lit "," ++ sr)
                     end
                 end
             end
         end) elems
  | VObject props =>
      if hasOwn "toString" props then None else Some (lit "[object Object]")
  end.

(** [Number(v)].  An array or object is first made a primitive, which is
    its string form (or the TypeError of that conversion). *)
Definition ToNumber (v : value) : option float :=
  match v with
  | VUndefined => Some nan
  | VNull => Some 0%float
  | VBoolean true => Some 1%float
  | VBoolean false => Some 0%float
  | VNumber n => Some n
  | VString s => Some (StringToNumber s)
  | VArray _ | VObject _ => option_map StringToNumber (ToString v)
  end.

End Coercions.

(** [isNaN(n)] on a number. *)
Definition isNaN (n : float) : bool := PrimFloat.is_nan n.

(** [n >= 0] *)
Definition ge0 (n : float) : bool := PrimFloat.leb 0%float n.

(** ** Records of the data model *)

(** [SongInfo] is declared in [@/providers/song-info]; these are the fields
    this file reads, the others travelling along unread.  [isPaused] and
    [elapsedSeconds] are optional there. *)
Record SongInfo : Type := mkSongInfo {
  title : jsstring;
  artist : jsstring;
  videoId : jsstring;
  isPaused : option bool;
  elapsedSeconds : option float
}.

(** The event tag passed to a song-info callback. *)
Inductive SongInfoEvent : Type :=
| VideoSrcChanged
| PlayOrPaused
| TimeChanged.

(** [RepeatMode] and [VolumeState] of [@/types/datahost-get-state]. *)
Inductive RepeatMode : Type := NONE | ONE | ALL.

Record VolumeState : Type := mkVolumeState {
  state : float;
  isMuted : bool
}.

(** The [song] entry of a lyric: [{ title, artists, videoId }]. *)
Record SongRef : Type := mkSongRef {
  ref_title : jsstring;
  artists : list jsstring;
  ref_videoId : jsstring
}.

(** The object [normalizeLyric] builds, which [lastLyrics] holds. *)
Module Lyric.
Record t : Type := mk {
  index : option float;         (* a number, or null *)
  text : jsstring;
  timeInMs : float;
  duration : float;
  isSynced : bool;
  song : option SongRef;        (* an object, or undefined *)
  timestamp : float;
  provider : value;
  romanized : value
}.
End Lyric.

Module PlayerState.
Record t : Type := mk {
  song : option SongInfo;
  isPlaying : bool;
  muted : bool;
  position : float;
  volume : float;
  repeat_ : RepeatMode;
  shuffle : bool
}.
End PlayerState.

(** [Partial<PlayerState>]: each field present or left out. *)
Module Partial.
Record t : Type := mk {
  song : option SongInfo;
  isPlaying : option bool;
  muted : option bool;
  position : option float;
  volume : option float;
  repeat_ : option RepeatMode;
  shuffle : option bool
}.
Definition empty : t := mk None None None None None None None.
End Partial.

(** ** The lyric normaliser *)

(** [n ?? d] where [n] is the result of [Number(...)]: a number is never
    nullish, so the right operand is not used. *)
Definition number_coalesce (n d : float) : float := n.

(** [song.artist ? song.artist.split(/[&,]/).map((s) => s.trim()) : []] *)
Definition splitArtists (artist : jsstring) : list jsstring :=
  if str_truthy artist
  then List.map trim (split ampersand_or_comma artist)
  else [].

(** [song ? { title, artists, videoId } : undefined] *)
Definition songRef (song : option SongInfo) : option SongRef :=
  match song with
  | Some s => Some (mkSongRef (title s) (splitArtists (artist s)) (videoId s))
  | None => None
  end.

(** A step of the [try] block: a conversion that throws leaves the block. *)
Notation "x <-? c ;; k" :=
  (match c with Some x => k | None => None end)
  (at level 100, c at next level, right associativity).

Section Normalizer.
Context {engine : Engine}.

(** [normalizeLyric(payload, song)], lines 170-197.  [now] is what
    [Date.now()] returns.  The conversions are taken in the order the source
    evaluates them; the first one that throws ends the [try] block, and the
    [catch] arm returns [null], here [None]. *)
Definition normalizeLyric (payload : value) (song : option SongInfo)
    (now : float) : option Lyric.t :=
  idx <-? ToNumber (get payload "index" ?? VNumber (-1)%float) ;;
  let line := get payload "line" ?? VNull in
  let text := get line "text" ?? get line "lyrics" ?? get line "text" ?? VString [] in
  timeInMs0 <-? ToNumber (get line "timeInMs" ?? get line "time" ?? VNumber nan) ;;
  let timeInMs := number_coalesce timeInMs0 nan in
  duration0 <-? ToNumber (get line "duration" ?? VNumber 0%float) ;;
  let duration := number_coalesce duration0 0%float in
  text' <-? ToString (text ?? VString []) ;;
  timestamp <-? ToNumber (get payload "timestamp" ?? VNumber now) ;;
  Some {|
    Lyric.index := if ge0 idx then Some idx else None;
    Lyric.text := text';
    Lyric.timeInMs := if isNaN timeInMs then 0%float else timeInMs;
    Lyric.duration := if isNaN duration then 0%float else duration;
    Lyric.isSynced :=
      jstype_eqb (typeof (get line "timeInMs")) TypeNumber
      || jstype_eqb (typeof (get line "time")) TypeString;
    Lyric.song := songRef song;
    Lyric.timestamp := timestamp;
    Lyric.provider := get payload "provider" ?? VNull;
    Lyric.romanized := get payload "romanized" ?? VNull
  |}.

End Normalizer.

Arguments normalizeLyric : simpl never.

(** ** Messages *)

Inductive DataTypes : Type :=
| PlayerInfo
| VideoChanged
| PlayerStateChanged
| PositionChanged
| VolumeChanged
| RepeatChanged
| ShuffleChanged
| LyricsChanged.

(** The object each [send] serialises. *)
Inductive Message : Type :=
| PlayerInfoMessage (st : PlayerState.t)               (* { type: PlayerInfo, ...createPlayerState(..) } *)
| StateMessage (type : DataTypes) (delta : Partial.t)  (* { type, ...state } *)
| LyricsMessage (lyric : Lyric.t)                      (* { type: LyricsChanged, lyric } *)
| LyricsUnavailable.                                   (* { type: 'LYRICS_UNAVAILABLE' } *)

Definition DataTypes_value (t : DataTypes) : string :=
  match t with
  | PlayerInfo => "PLAYER_INFO"
  | VideoChanged => "VIDEO_CHANGED"
  | PlayerStateChanged => "PLAYER_STATE_CHANGED"
  | PositionChanged => "POSITION_CHANGED"
  | VolumeChanged => "VOLUME_CHANGED"
  | RepeatChanged => "REPEAT_CHANGED"
  | ShuffleChanged => "SHUFFLE_CHANGED"
  | LyricsChanged => "LYRICS_CHANGED"
  end.

(** The [type] entry of a message on the wire. *)
Definition message_type (m : Message) : string :=
  match m with
  | PlayerInfoMessage _ => DataTypes_value PlayerInfo
  | StateMessage t _ => DataTypes_value t
  | LyricsMessage _ => DataTypes_value LyricsChanged
  | LyricsUnavailable => "LYRICS_UNAVAILABLE"
  end.

(** ** The hub and its surroundings *)

(** A connection handle ([WSContext]), compared by identity. *)
Definition WS := nat.

(** The closure variables of [register], lines 47-53.  [sockets] is a
    [Set]: no duplicates, iterated in insertion order. *)
Record Hub : Type := mkHub {
  volumeState : option VolumeState;
  repeat_ : RepeatMode;
  shuffle : bool;
  lastSongInfo : option SongInfo;
  lastLyrics : option Lyric.t;
  sockets : list WS
}.

(** The hub, and around it: what each connection has been sent so far,
    which connections' [send] throws (a connection keeps its behaviour over a
    run), and how many times the renderer has been asked to run the lyric
    script. *)
Record World : Type := mkWorld {
  hub : Hub;
  received : WS -> list Message;
  throws : WS -> bool;
  rendererCalls : nat
}.

Definition initialHub : Hub :=
  mkHub None NONE false None None [].

Definition initialWorld (throws : WS -> bool) : World :=
  mkWorld initialHub (fun _ => []) throws 0.

(** *** Handlers as state transformers that may throw

    A handler either completes or throws; what it wrote before throwing
    stays written. *)
Inductive completion (A : Type) : Type :=
| Normal (a : A)
| Throw.
Arguments Throw {A}.

Definition M (A : Type) : Type := World -> completion A * World.

Definition ret {A} (a : A) : M A := fun w => (Normal a, w).

Definition bind {A B} (m : M A) (k : A -> M B) : M B :=
  fun w =>
    match m w with
    | (Normal a, w') => k a w'
    | (Throw, w') => (Throw, w')
    end.

Declare Scope hub_scope.
Delimit Scope hub_scope with hub.
Notation "x <- m ;; k" := (bind m (fun x => k))
  (at level 100, m at next level, right associativity) : hub_scope.
Notation "m ;; k" := (bind m (fun _ => k))
  (at level 100, right associativity) : hub_scope.
Local Open Scope hub_scope.

(** [try { body } catch (e) { handler }] *)
Definition try_catch {A} (body handler : M A) : M A :=
  fun w =>
    match body w with
    | (Normal a, w') => (Normal a, w')
    | (Throw, w') => handler w'
    end.

Definition readHub : M Hub := fun w => (Normal (hub w), w).

Definition writeHub (f : Hub -> Hub) : M unit :=
  fun w => (Normal tt, mkWorld (f (hub w)) (received w) (throws w) (rendererCalls w)).

Definition set_volumeState (v : option VolumeState) (h : Hub) : Hub :=
  mkHub v (repeat_ h) (shuffle h) (lastSongInfo h) (lastLyrics h) (sockets h).
Definition set_repeat (r : RepeatMode) (h : Hub) : Hub :=
  mkHub (volumeState h) r (shuffle h) (lastSongInfo h) (lastLyrics h) (sockets h).
Definition set_shuffle (b : bool) (h : Hub) : Hub :=
  mkHub (volumeState h) (repeat_ h) b (lastSongInfo h) (lastLyrics h) (sockets h).
Definition set_lastSongInfo (s : option SongInfo) (h : Hub) : Hub :=
  mkHub (volumeState h) (repeat_ h) (shuffle h) s (lastLyrics h) (sockets h).
Definition set_lastLyrics (l : option Lyric.t) (h : Hub) : Hub :=
  mkHub (volumeState h) (repeat_ h) (shuffle h) (lastSongInfo h) l (sockets h).
Definition set_sockets (s : list WS) (h : Hub) : Hub :=
  mkHub (volumeState h) (repeat_ h) (shuffle h) (lastSongInfo h) (lastLyrics h) s.

(** [socket.send(JSON.stringify(m))]: the frame reaches the connection, or
    the call throws and nothing is delivered. *)
Definition socket_send (socket : WS) (m : Message) : M unit :=
  fun w =>
    if throws w socket then (Throw, w)
    else (Normal tt,
          mkWorld (hub w)
                  (fun s => if Nat.eqb s socket then received w s ++ [m] else received w s)
                  (throws w) (rendererCalls w)).

(** [set.forEach(f)]: the elements in insertion order; a throw from [f]
    leaves the loop. *)
Fixpoint forEach (f : WS -> M unit) (set : list WS) : M unit :=
  match set with
  | [] => ret tt
  | socket :: rest => f socket ;; forEach f rest
  end.

(** [send(type, state)], lines 55-59. *)
Definition send (type : DataTypes) (state : Partial.t) : M unit :=
  h <- readHub ;;
  forEach (fun socket => socket_send socket (StateMessage type state)) (sockets h).

(** [createPlayerState({ songInfo, volumeState, repeat, shuffle })],
    lines 81-99. *)
Definition createPlayerState (songInfo : option SongInfo)
    (volumeState : option VolumeState) (repeat : RepeatMode) (shuffle : bool)
    : PlayerState.t :=
  {| PlayerState.song := songInfo;
     PlayerState.isPlaying :=
       match songInfo with
       | Some s => negb (match isPaused s with Some b => b | None => false end)
       | None => false
       end;
     PlayerState.muted :=
       match volumeState with Some v => isMuted v | None => false end;
     PlayerState.position :=
       match songInfo with
       | Some s => match elapsedSeconds s with Some t => t | None => 0%float end
       | None => 0%float
       end;
     PlayerState.volume :=
       match volumeState with Some v => state v | None => 100%float end;
     PlayerState.repeat_ := repeat;
     PlayerState.shuffle := shuffle |}.

(** The snapshot [onOpen] builds from the closure variables. *)
Definition snapshot (h : Hub) : PlayerState.t :=
  createPlayerState (lastSongInfo h) (volumeState h) (repeat_ h) (shuffle h).

(** *** The [/lyrics/current] route, lines 102-147 *)

(** What the script run in the renderer evaluates to when a current line
    is on screen: [{ index: null, text, romanized, timestamp }]. *)
Record ScrapedLine : Type := mkScrapedLine {
  scraped_text : jsstring;
  scraped_romanized : option jsstring;   (* a string, or null *)
  scraped_timestamp : float
}.

(** The outcome of [await window.webContents.executeJavaScript(script, true)]:
    the promise rejects, or resolves to [null] or to a scraped line. *)
Inductive RendererResult : Type :=
| Rejected
| Resolved (res : option ScrapedLine).

Definition executeJavaScript (r : RendererResult) : M (option ScrapedLine) :=
  fun w =>
    (match r with Rejected => Throw | Resolved res => Normal res end,
     mkWorld (hub w) (received w) (throws w) (S (rendererCalls w))).

(** The object assigned to [lastLyrics] at lines 121-139. *)
Definition scrapedLyric (res : ScrapedLine) (lastSongInfo : option SongInfo) : Lyric.t :=
  {| Lyric.index := None;
     Lyric.text := scraped_text res;
     Lyric.timeInMs := 0%float;
     Lyric.duration := 0%float;
     Lyric.isSynced := false;
     Lyric.song := songRef lastSongInfo;
     Lyric.timestamp := scraped_timestamp res;
     Lyric.provider := VNull;
     Lyric.romanized :=
       match scraped_romanized res with Some r => VString r | None => VNull end |}.

(** The JSON body of the response, with its status. *)
Record Response : Type := mkResponse {
  status : nat;
  available : bool;
  lyric : option Lyric.t     (* an object, or null *)
}.

(** [!!lastLyrics]: the variable holds [undefined] or an object. *)
Definition truthy_lyrics (l : option Lyric.t) : bool :=
  match l with Some _ => true | None => false end.

(** The handler.  It suspends at the [await]; before that it has read and
    written nothing of the hub, so a request is modelled at the moment it
    resumes with the renderer's outcome [r]. *)
Definition currentLyricHandler (r : RendererResult) : M Response :=
  try_catch
    (res <- executeJavaScript r ;;
     match res with
     | Some res =>
         h <- readHub ;;
         writeHub (set_lastLyrics (Some (scrapedLyric res (lastSongInfo h))))
     | None => ret tt
     end)
    (ret tt) ;;
  h <- readHub ;;
  ret (mkResponse 200 (truthy_lyrics (lastLyrics h)) (lastLyrics h)).

(** *** The song-info callback, lines 149-167 *)

Definition onSongInfo (songInfo : SongInfo) (event : SongInfoEvent) : M unit :=
  (match event with
   | VideoSrcChanged =>
       writeHub (set_lastLyrics None) ;;
       send VideoChanged
         {| Partial.song := Some songInfo; Partial.isPlaying := None;
            Partial.muted := None; Partial.position := Some 0%float;
            Partial.volume := None; Partial.repeat_ := None;
            Partial.shuffle := None |}
   | _ => ret tt
   end) ;;
  (match event with
   | PlayOrPaused =>
       send PlayerStateChanged
         {| Partial.song := None;
            Partial.isPlaying :=
              Some (negb (match isPaused songInfo with Some b => b | None => true end));
            Partial.muted := None; Partial.position := elapsedSeconds songInfo;
            Partial.volume := None; Partial.repeat_ := None;
            Partial.shuffle := None |}
   | _ => ret tt
   end) ;;
  (match event with
   | TimeChanged =>
       send PositionChanged
         {| Partial.song := None; Partial.isPlaying := None;
            Partial.muted := None; Partial.position := elapsedSeconds songInfo;
            Partial.volume := None; Partial.repeat_ := None;
            Partial.shuffle := None |}
   | _ => ret tt
   end) ;;
  writeHub (set_lastSongInfo (Some songInfo)).

(** *** The IPC listeners, lines 199-239 *)

Section Listeners.
Context {engine : Engine}.

(** [ipc.on('synced-lyrics:current', ...)].  The guarded [console.debug]
    touches nothing of the hub. *)
Definition onSyncedLyricsCurrent (payload : value) (now : float) : M unit :=
  h <- readHub ;;
  match normalizeLyric payload (lastSongInfo h) now with
  | None => ret tt
  | Some normalized =>
      writeHub (set_lastLyrics (Some normalized)) ;;
      h <- readHub ;;
      forEach (fun socket => socket_send socket (LyricsMessage normalized)) (sockets h)
  end.

End Listeners.

Definition onVolumeChanged (newVolumeState : VolumeState) : M unit :=
  writeHub (set_volumeState (Some newVolumeState)) ;;
  send VolumeChanged
    {| Partial.song := None; Partial.isPlaying := None;
       Partial.muted := Some (isMuted newVolumeState); Partial.position := None;
       Partial.volume := Some (state newVolumeState); Partial.repeat_ := None;
       Partial.shuffle := None |}.

Definition onRepeatChanged (mode : RepeatMode) : M unit :=
  writeHub (set_repeat mode) ;;
  send RepeatChanged
    {| Partial.song := None; Partial.isPlaying := None; Partial.muted := None;
       Partial.position := None; Partial.volume := None;
       Partial.repeat_ := Some mode; Partial.shuffle := None |}.

Definition onSeeked (t : float) : M unit :=
  send PositionChanged
    {| Partial.song := None; Partial.isPlaying := None; Partial.muted := None;
       Partial.position := Some t; Partial.volume := None;
       Partial.repeat_ := None; Partial.shuffle := None |}.

Definition onShuffleChanged (newShuffle : bool) : M unit :=
  writeHub (set_shuffle newShuffle) ;;
  send ShuffleChanged
    {| Partial.song := None; Partial.isPlaying := None; Partial.muted := None;
       Partial.position := None; Partial.volume := None;
       Partial.repeat_ := None; Partial.shuffle := Some newShuffle |}.

(** *** The websocket hooks, lines 253-285 *)

(** [sockets.add(ws)] and [sockets.delete(ws)]. *)
Definition sockets_add (ws : WS) (s : list WS) : list WS :=
  ListSet.set_add Nat.eq_dec ws s.
Definition sockets_delete (ws : WS) (s : list WS) : list WS :=
  ListSet.set_remove Nat.eq_dec ws s.

Definition onOpen (ws : WS) : M unit :=
  h <- readHub ;;
  writeHub (set_sockets (sockets_add ws (sockets h))) ;;
  h <- readHub ;;
  socket_send ws (PlayerInfoMessage
    (createPlayerState (lastSongInfo h) (volumeState h) (repeat_ h) (shuffle h))) ;;
  h <- readHub ;;
  match lastLyrics h with
  | Some l => socket_send ws (LyricsMessage l)
  | None => socket_send ws LyricsUnavailable
  end.

Definition onClose (ws : WS) : M unit :=
  h <- readHub ;;
  writeHub (set_sockets (sockets_delete ws (sockets h))).

(** ** Runs of the hub *)

(** What can happen to the hub: one constructor per registered handler. *)
Inductive Event : Type :=
| SongInfoCallback (songInfo : SongInfo) (event : SongInfoEvent)
| SyncedLyricsCurrent (payload : value) (now : float)
| VolumeChangedIpc (newVolumeState : VolumeState)
| RepeatChangedIpc (mode : RepeatMode)
| Seeked (t : float)
| ShuffleChangedIpc (newShuffle : bool)
| Open (ws : WS)
| Close (ws : WS)
| GetCurrentLyric (r : RendererResult).

Section Runs.
Context {engine : Engine}.

Definition handle (e : Event) : M unit :=
  match e with
  | SongInfoCallback songInfo event => onSongInfo songInfo event
  | SyncedLyricsCurrent payload now => onSyncedLyricsCurrent payload now
  | VolumeChangedIpc v => onVolumeChanged v
  | RepeatChangedIpc mode => onRepeatChanged mode
  | Seeked t => onSeeked t
  | ShuffleChangedIpc b => onShuffleChanged b
  | Open ws => onOpen ws
  | Close ws => onClose ws
  | GetCurrentLyric r => _ <- currentLyricHandler r ;; ret tt
  end.

(** One event handled to the end or to its throw; the hub goes on with the
    next event either way. *)
Definition step (w : World) (e : Event) : World := snd (handle e w).

Definition run (evs : list Event) (w : World) : World := fold_left step evs w.

End Runs.

(** ** The synced-lyrics backend

    [src/plugins/synced-lyrics/backend.ts].  The module variable
    [lastCurrent] holds [null] or the last payload.  The [ipc] object is the
    host's; of it the model keeps what the backend registers: the channels
    with an invoke handler ([ipc.handle], [ipc.removeHandler]) and the
    channels listened to ([ipc.on]).  The [fetch] handler forwards to the
    network and is kept only as a registration. *)
Module SyncedLyrics.

Inductive Channel : Type :=
| Fetch         (* 'synced-lyrics:fetch' *)
| Current       (* 'synced-lyrics:current' *)
| GetCurrent.   (* 'synced-lyrics:get-current' *)

Definition Channel_eqb (a b : Channel) : bool :=
  match a, b with
  | Fetch, Fetch | Current, Current | GetCurrent, GetCurrent => true
  | _, _ => false
  end.

Record Backend : Type := mkBackend {
  lastCurrent : option value;      (* a payload, or null *)
  handled : list Channel;
  listened : list Channel
}.

(** The module as loaded: [lastCurrent = null], nothing registered. *)
Definition loaded : Backend := mkBackend None [] [].

(** [start(ctx)], lines 25-33. *)
Definition start (b : Backend) : Backend :=
  mkBackend (lastCurrent b)
            (GetCurrent :: Fetch :: handled b)
            (Current :: listened b).

(** [stop(ctx)], lines 34-37: the two invoke handlers are removed. *)
Definition stop (b : Backend) : Backend :=
  mkBackend (lastCurrent b)
            (filter (fun c => negb (Channel_eqb c GetCurrent))
                    (filter (fun c => negb (Channel_eqb c Fetch)) (handled b)))
            (listened b).

(** A ['synced-lyrics:current'] message arrives: every registered listener
    runs [lastCurrent = payload]. *)
Definition emitCurrent (payload : value) (b : Backend) : Backend :=
  if existsb (Channel_eqb Current) (listened b)
  then mkBackend (Some payload) (handled b) (listened b)
  else b.

(** An invoke of ['synced-lyrics:get-current']: answered with [lastCurrent]
    when the handler is registered, not answered otherwise. *)
Definition invokeGetCurrent (b : Backend) : option (option value) :=
  if existsb (Channel_eqb GetCurrent) (handled b)
  then Some (lastCurrent b)
  else None.

(** Whether the listener, and the [get-current] handler, are registered. *)
Definition listening (b : Backend) : bool :=
  existsb (Channel_eqb Current) (listened b).

Definition answering (b : Backend) : bool :=
  existsb (Channel_eqb GetCurrent) (handled b).

(** What happens to the backend. *)
Inductive Op : Type :=
| Start
| Stop
| Emit (payload : value).

Definition apply (b : Backend) (o : Op) : Backend :=
  match o with
  | Start => start b
  | Stop => stop b
  | Emit payload => emitCurrent payload b
  end.

Definition run (ops : list Op) (b : Backend) : Backend := fold_left apply ops b.

(** The payload of the last [Emit] of a list of operations. *)
Fixpoint lastEmitted (ops : list Op) (acc : option value) : option value :=
  match ops with
  | [] => acc
  | Emit payload :: rest => lastEmitted rest (Some payload)
  | _ :: rest => lastEmitted rest acc
  end.

(** The operations from the first [Start] on. *)
Fixpoint sinceStart (ops : list Op) : list Op :=
  match ops with
  | [] => []
  | Start :: rest => rest
  | _ :: rest => sinceStart rest
  end.

Definition started (ops : list Op) : bool :=
  existsb (fun o => match o with Start => true | _ => false end) ops.

(** The handlers are registered after a run when its last [Start] or [Stop]
    is a [Start]. *)
Definition running (ops : list Op) : bool :=
  fold_left (fun r o => match o with Start => true | Stop => false | Emit _ => r end)
            ops false.

End SyncedLyrics.

(** ** An engine to run examples

    The conversions below cover unsigned decimal integers under [2^53],
    which binary64 holds exactly: [StringToNumber] reads such a literal
    (surrounding white space allowed, the empty string being [0]) and
    [NumberToString] prints such a number.  Outside that range they answer
    [NaN]; that is the engine's answer for a string that is no numeric
    literal, and a placeholder otherwise.  No closed example of this file
    converts between a string and a number, so none depends on the choice. *)

Fixpoint readDigits (acc : N) (s : jsstring) : option N :=
  match s with
  | [] => Some acc
  | c :: r =>
      if N.leb 48 c && N.leb c 57
      then readDigits (acc * 10 + (c - 48)) r
      else None
  end.

Definition two53 : N := 9007199254740992.

Definition float_of_N (n : N) : float :=
  PrimFloat.of_uint63 (Uint63.of_Z (Z.of_N n)).

Definition exampleStringToNumber (s : jsstring) : float :=
  match trim s with
  | [] => 0%float
  | t =>
      match readDigits 0 t with
      | Some n => if N.ltb n two53 then float_of_N n else nan
      | None => nan
      end
  end.

(** The integer a float denotes, when it is one of [0 .. 2^53 - 1]. *)
Definition N_of_float (f : float) : option N :=
  if PrimFloat.eqb f 0%float then Some 0%N
  else if PrimFloat.ltb 0%float f && PrimFloat.ltb f (float_of_N two53) then
    let (m, e) := PrimFloat.frshiftexp f in
    let mant := Z.to_N (Uint63.to_Z (PrimFloat.normfr_mantissa m)) in
    let ex := (Uint63.to_Z e - 2101 - 53)%Z in   (* the exponent bias of frshiftexp, and the mantissa width *)
    if Z.leb ex 0 then
      let d := N.pow 2 (Z.to_N (Z.opp ex)) in
      if N.eqb (N.modulo mant d) 0 then Some (N.div mant d) else None
    else None
  else None.

Fixpoint printDigits (fuel : nat) (n : N) (acc : jsstring) : jsstring :=
  match fuel with
  | O => acc
  | S fuel' =>
      let acc' := (48 + N.modulo n 10)%N :: acc in
      if N.ltb n 10 then acc' else printDigits fuel' (N.div n 10) acc'
  end.

Definition exampleNumberToString (f : float) : jsstring :=
  match N_of_float f with
  | Some n => printDigits 16 n []
  | None => lit "NaN"
  end.

Definition exampleEngine : Engine :=
  {| StringToNumber := exampleStringToNumber;
     NumberToString := exampleNumberToString |}.

Unset Implicit Arguments.

(** ** Inputs of the closed examples *)

(** Connection 1 cannot be written to; every other one can. *)
Definition firstThrows (s : WS) : bool := Nat.eqb s 1.

Definition noneThrows (s : WS) : bool := false.

(** A hub with connections 1 and 2 open, in that order. *)
Definition twoSockets (throws : WS -> bool) : World :=
  mkWorld (set_sockets [1; 2] initialHub) (fun _ => []) throws 0.

Definition volume42Muted : VolumeState := mkVolumeState 42%float true.

(** [{ index: { toString: null } }]: a payload that lacks [line] and
    [timestamp], and whose [index] cannot be made a number. *)
Definition unconvertibleIndex : value :=
  VObject [ (lit "index", VObject [ (lit "toString", VNull) ]) ].

(** [{ index: 3, line: { text: 'hi', timeInMs: 1000, duration: 500 } }]:
    a payload that lacks [timestamp] and nothing else. *)
Definition timedLineNoTimestamp : value :=
  VObject [ (lit "index", VNumber 3%float);
            (lit "line", VObject [ (lit "text", VString (lit "hi"));
                                   (lit "timeInMs", VNumber 1000%float);
                                   (lit "duration", VNumber 500%float) ]) ].

(** [{ index: 0, line: { text: 'pushed' } }], a lyric update as the
    synced-lyrics plugin pushes it, and a line scraped from the screen. *)
Definition pushedPayload : value :=
  VObject [ (lit "index", VNumber 0%float);
            (lit "line", VObject [ (lit "text", VString (lit "pushed")) ]) ].

Definition scrapedOnScreen : ScrapedLine :=
  mkScrapedLine (lit "scraped") None 9%float.

Definition someSong : SongInfo :=
  mkSongInfo (lit "Title") (lit "A & B, C") (lit "vid") (Some false) (Some 37%float).

(** [{ line: { text: 'la la la', time: 5000 } }]: a line whose [time] is a
    number and not a string. *)
Definition numericTimeLine : value :=
  VObject [ (lit "line", VObject [ (lit "text", VString (lit "la la la"));
                                   (lit "time", VNumber 5000%float) ]) ].

(** [{ line: { text: 'la la la' } }]: a plain static text line, with no
    index, no timing and no timestamp. *)
Definition staticLine : value :=
  VObject [ (lit "line", VObject [ (lit "text", VString (lit "la la la")) ]) ].

(** A track change, then a request to the route while a line is on screen,
    with no pushed lyric in between. *)
Definition trackThenScrape : list Event :=
  [ SongInfoCallback someSong VideoSrcChanged;
    GetCurrentLyric (Resolved (Some scrapedOnScreen)) ].

(** A position tick at 37 seconds, a connection, and a seek to 42. *)
Definition tickOpenSeek : list Event :=
  [ SongInfoCallback someSong TimeChanged; Open 1; Seeked 42%float ].

(** ** Notions used to state the properties *)

(** The connections a fan-out reaches: those before the first one whose
    [send] throws. *)
Fixpoint reached (throws : WS -> bool) (set : list WS) : list WS :=
  match set with
  | [] => []
  | s :: rest => if throws s then [] else s :: reached throws rest
  end.

(** A payload lacks the field [k]: it is no object, or an object without
    an own property of that name. *)
Definition absent (payload : value) (k : string) : bool :=
  match payload with
  | VObject props =>
      match lookup (lit k) props with
      | Some _ => false
      | None => true
      end
  | _ => true
  end.

(** The field [k] of the raw nested line object of a payload, when the
    payload is an object whose [line] is an object that has the field. *)
Definition rawLineField (payload : value) (k : string) : option value :=
  match payload with
  | VObject props =>
      match lookup (lit "line") props with
      | Some (VObject lineProps) => lookup (lit k) lineProps
      | _ => None
      end
  | _ => None
  end.


(** The message a new connection gets after [PLAYER_INFO]. *)
Definition lyricBaseline (l : option Lyric.t) : Message :=
  match l with
  | Some lyric => LyricsMessage lyric
  | None => LyricsUnavailable
  end.

(** The delta of a track change, and the one of a seek or position tick. *)
Definition videoChangedDelta (songInfo : SongInfo) : Message :=
  StateMessage VideoChanged
    {| Partial.song := Some songInfo; Partial.isPlaying := None;
       Partial.muted := None; Partial.position := Some 0%float;
       Partial.volume := None; Partial.repeat_ := None;
       Partial.shuffle := None |}.

Definition positionChangedDelta (t : float) : Message :=
  StateMessage PositionChanged
    {| Partial.song := None; Partial.isPlaying := None; Partial.muted := None;
       Partial.position := Some t; Partial.volume := None;
       Partial.repeat_ := None; Partial.shuffle := None |}.

(** Classes of events. *)
Definition is_open_of (ws : WS) (e : Event) : bool :=
  match e with
  | Open ws' => Nat.eqb ws' ws
  | _ => false
  end.

(** A conversion returned, rather than threw. *)
Definition defined {A : Type} (o : option A) : bool :=
  match o with Some _ => true | None => false end.

(** [String(v)] and [Number(v)] do not throw on [v]: no object with an own
    [toString] is converted, in [v] itself or among the elements an array
    joins. *)
Fixpoint convertible (v : value) : bool :=
  match v with
  | VArray elems =>
      (fix all (l : list value) : bool :=
         match l with
         | [] => true
         | x :: r => (nullish x || convertible x) && all r
         end) elems
  | VObject props => negb (hasOwn "toString" props)
  | _ => true
  end.

(** No conversion made by [normalizeLyric] throws on the payload: the ones
    of its [index], of its line's [timeInMs] or [time], [duration], and [text]
    or [lyrics], and of its [timestamp]. *)
Definition normalizable (payload : value) : bool :=
  let line := get payload "line" ?? VNull in
  convertible (get payload "index" ?? VNull)
  && convertible (get line "timeInMs" ?? get line "time" ?? VNull)
  && convertible (get line "duration" ?? VNull)
  && convertible (get line "text" ?? get line "lyrics" ?? VNull)
  && convertible (get payload "timestamp" ?? VNull).

(** The events that assign an object to [lastLyrics]: a pushed payload that
    normalises to a lyric, and a request to the route for which the renderer
    returns a line. *)
Definition writes_lyrics (e : Event) : bool :=
  match e with
  | SyncedLyricsCurrent payload _ => normalizable payload
  | GetCurrentLyric (Resolved (Some _)) => true
  | _ => false
  end.

Definition is_pushed_lyric (e : Event) : bool :=
  match e with
  | SyncedLyricsCurrent _ _ => true
  | _ => false
  end.

Definition is_volume_event (e : Event) : bool :=
  match e with VolumeChangedIpc _ => true | _ => false end.

Definition is_repeat_event (e : Event) : bool :=
  match e with RepeatChangedIpc _ => true | _ => false end.

Definition is_shuffle_event (e : Event) : bool :=
  match e with ShuffleChangedIpc _ => true | _ => false end.

Definition is_songinfo_event (e : Event) : bool :=
  match e with SongInfoCallback _ _ => true | _ => false end.

Definition none_of (p : Event -> bool) (evs : list Event) : bool :=
  forallb (fun e => negb (p e)) evs.

(** [song.isPaused] read as a condition: a missing flag is falsy. *)
Definition paused (s : SongInfo) : bool :=
  match isPaused s with Some b => b | None => false end.

(** The full player state of a hub, field by field as the data model words
    it: the stored song; playing when a song is stored and it is not paused;
    muted and volume from the stored volume state, [false] and [100] without
    one; position from the stored song's elapsed seconds, [0] without them;
    the stored repeat mode and shuffle flag. *)
Definition fullPlayerState (h : Hub) : PlayerState.t :=
  {| PlayerState.song := lastSongInfo h;
     PlayerState.isPlaying :=
       match lastSongInfo h with
       | Some s => negb (paused s)
       | None => false
       end;
     PlayerState.muted :=
       match volumeState h with
       | Some v => isMuted v
       | None => false
       end;
     PlayerState.position :=
       match lastSongInfo h with
       | Some {| elapsedSeconds := Some t |} => t
       | _ => 0%float
       end;
     PlayerState.volume :=
       match volumeState h with
       | Some v => state v
       | None => 100%float
       end;
     PlayerState.repeat_ := repeat_ h;
     PlayerState.shuffle := shuffle h |}.

(** ** Notions used to state further properties *)

Section Deltas.
Context {engine : Engine}.

(** The one message an event fans out to the live set, if any. *)
Definition delta (e : Event) (h : Hub) : option Message :=
  match e with
  | SongInfoCallback songInfo VideoSrcChanged => Some (videoChangedDelta songInfo)
  | SongInfoCallback songInfo PlayOrPaused =>
      Some (StateMessage PlayerStateChanged
              {| Partial.song := None;
                 Partial.isPlaying :=
                   Some (negb (match isPaused songInfo with Some b => b | None => true end));
                 Partial.muted := None; Partial.position := elapsedSeconds songInfo;
                 Partial.volume := None; Partial.repeat_ := None;
                 Partial.shuffle := None |})
  | SongInfoCallback songInfo TimeChanged =>
      Some (StateMessage PositionChanged
              {| Partial.song := None; Partial.isPlaying := None;
                 Partial.muted := None; Partial.position := elapsedSeconds songInfo;
                 Partial.volume := None; Partial.repeat_ := None;
                 Partial.shuffle := None |})
  | SyncedLyricsCurrent payload now =>
      option_map LyricsMessage (normalizeLyric payload (lastSongInfo h) now)
  | VolumeChangedIpc v =>
      Some (StateMessage VolumeChanged
              {| Partial.song := None; Partial.isPlaying := None;
                 Partial.muted := Some (isMuted v); Partial.position := None;
                 Partial.volume := Some (state v); Partial.repeat_ := None;
                 Partial.shuffle := None |})
  | RepeatChangedIpc mode =>
      Some (StateMessage RepeatChanged
              {| Partial.song := None; Partial.isPlaying := None;
                 Partial.muted := None; Partial.position := None;
                 Partial.volume := None; Partial.repeat_ := Some mode;
                 Partial.shuffle := None |})
  | Seeked t => Some (positionChangedDelta t)
  | ShuffleChangedIpc b =>
      Some (StateMessage ShuffleChanged
              {| Partial.song := None; Partial.isPlaying := None;
                 Partial.muted := None; Partial.position := None;
                 Partial.volume := None; Partial.repeat_ := None;
                 Partial.shuffle := Some b |})
  | Open _ | Close _ | GetCurrentLyric _ => None
  end.

End Deltas.

Definition is_open_event (e : Event) : bool :=
  match e with Open _ => true | _ => false end.

Definition is_request (e : Event) : bool :=
  match e with GetCurrentLyric _ => true | _ => false end.

(** Membership in a list of connections, as a boolean. *)
Definition mem (ws : WS) (set : list WS) : bool := existsb (Nat.eqb ws) set.

(** Whether connection [ws] is open after the events [evs], given whether
    it was before: its last [Open] or [Close] decides. *)
Definition live (ws : WS) (evs : list Event) (before : bool) : bool :=
  fold_left
    (fun b e =>
       match e with
       | Open x => if Nat.eqb x ws then true else b
       | Close x => if Nat.eqb x ws then false else b
       | _ => b
       end)
    evs before.

(** The first of the candidates that is there and is neither [undefined]
    nor [null]. *)
Fixpoint firstPresent (candidates : list (option value)) : option value :=
  match candidates with
  | [] => None
  | Some v :: rest => if nullish v then firstPresent rest else Some v
  | None :: rest => firstPresent rest
  end.

(** A string has no white space at either end. *)
Definition trimmed (s : jsstring) : Prop :=
  match s with c :: _ => isWhiteSpace c = false | [] => True end
  /\ match rev s with c :: _ => isWhiteSpace c = false | [] => True end.

(** * Properties *)

(** ** What a fan-out does *)

Lemma reached_all (throws : WS -> bool) (set : list WS) :
  existsb throws set = false -> reached throws set = set.
Proof.
  induction set as [|s rest IH]; simpl; [reflexivity|].
  destruct (throws s); simpl; [discriminate|].
  intros H. now rewrite IH.
Qed.

Lemma reached_prefix (throws : WS -> bool) (before after : list WS) (x : WS) :
  existsb throws before = false -> throws x = true ->
  reached throws (before ++ x :: after) = before.
Proof.
  induction before as [|s rest IH]; simpl; intros Hb Hx.
  - now rewrite Hx.
  - destruct (throws s); simpl in *; [discriminate|].
    now rewrite IH.
Qed.

Lemma existsb_prefix (throws : WS -> bool) (before after : list WS) (x : WS) :
  throws x = true -> existsb throws (before ++ x :: after) = true.
Proof.
  intros Hx. rewrite existsb_app. simpl. rewrite Hx.
  now rewrite orb_true_r.
Qed.

Lemma count_occ_NoDup_in (l : list WS) (s : WS) :
  NoDup l -> In s l -> count_occ Nat.eq_dec l s = 1.
Proof.
  intros Hnd Hin.
  pose proof (proj1 (NoDup_count_occ Nat.eq_dec l) Hnd s) as Hle.
  pose proof (proj1 (count_occ_In Nat.eq_dec l s) Hin) as Hgt.
  lia.
Qed.

Lemma count_occ_notin (l : list WS) (s : WS) :
  ~ In s l -> count_occ Nat.eq_dec l s = 0.
Proof. apply count_occ_not_In. Qed.

(** One loop over the set: the outcome, and what every connection holds
    afterwards.  Nothing but [received] changes. *)
Lemma forEach_send (m : Message) (set : list WS) (w : World) :
  let r := forEach (fun socket => socket_send socket m) set w in
  fst r = (if existsb (throws w) set then Throw else Normal tt)
  /\ hub (snd r) = hub w
  /\ throws (snd r) = throws w
  /\ rendererCalls (snd r) = rendererCalls w
  /\ forall s, received (snd r) s
               = received w s ++ repeat m (count_occ Nat.eq_dec (reached (throws w) set) s).
Proof.
  revert w. induction set as [|a rest IH]; intros w; simpl.
  - repeat split. intros s. now rewrite app_nil_r.
  - unfold bind, socket_send.
    destruct (throws w a) eqn:Ha; simpl.
    + repeat split. intros s. now rewrite app_nil_r.
    + match goal with |- context [forEach _ rest ?w1] => specialize (IH w1) end.
      simpl in IH. destruct IH as (Hc & Hh & Ht & Hr & Hrec).
      repeat split; try assumption.
      intros s. rewrite Hrec. simpl.
      destruct (Nat.eq_dec a s) as [->|Hne].
      * rewrite Nat.eqb_refl. now rewrite <- app_assoc.
      * destruct (Nat.eqb_spec s a) as [->|_]; [contradiction|reflexivity].
Qed.

(** [send(type, state)] is that loop over [sockets]. *)
Lemma send_spec (type : DataTypes) (state : Partial.t) (w : World) :
  let r := send type state w in
  fst r = (if existsb (throws w) (sockets (hub w)) then Throw else Normal tt)
  /\ hub (snd r) = hub w
  /\ throws (snd r) = throws w
  /\ rendererCalls (snd r) = rendererCalls w
  /\ forall s, received (snd r) s
               = received w s
                 ++ repeat (StateMessage type state)
                      (count_occ Nat.eq_dec (reached (throws w) (sockets (hub w))) s).
Proof.
  unfold send, bind, readHub. simpl.
  apply forEach_send.
Qed.

(** C1 (as amended).  A fan-out of one message over the live set visits the
    connections in the order they were added and never changes the set.  When
    no [send] throws, the handler's loop completes and every live connection
    has received the message.  When the [send] of connection [x] throws, the
    loop ends there with that exception: the connections before [x] have
    received the message, no other connection has received anything, and [x]
    is still in the set. *)
Theorem send_stops_at_first_failure (type : DataTypes) (state : Partial.t) (w : World) :
  NoDup (sockets (hub w)) ->
  let m := StateMessage type state in
  let r := send type state w in
  sockets (hub (snd r)) = sockets (hub w)
  /\ (existsb (throws w) (sockets (hub w)) = false ->
      fst r = Normal tt
      /\ forall y, In y (sockets (hub w)) -> received (snd r) y = received w y ++ [m])
  /\ (forall before x after,
        sockets (hub w) = before ++ x :: after ->
        existsb (throws w) before = false ->
        throws w x = true ->
        fst r = Throw
        /\ (forall y, In y before -> received (snd r) y = received w y ++ [m])
        /\ (forall y, ~ In y before -> received (snd r) y = received w y)
        /\ In x (sockets (hub (snd r)))).
Proof.
  intros Hnd m r.
  destruct (send_spec type state w) as (Hc & Hh & _ & _ & Hrec).
  fold r in Hc, Hh, Hrec. fold m in Hrec.
  split; [now rewrite Hh|]. split.
  - intros Hnone. rewrite Hnone in Hc. split; [exact Hc|].
    intros y Hy. rewrite Hrec, (reached_all _ _ Hnone).
    now rewrite (count_occ_NoDup_in _ _ Hnd Hy).
  - intros before x after Hset Hb Hx.
    rewrite Hset in Hc, Hrec.
    rewrite (existsb_prefix _ before after _ Hx) in Hc.
    rewrite (reached_prefix _ before after _ Hb Hx) in Hrec.
    assert (Hndb : NoDup before).
    { rewrite Hset in Hnd. now apply NoDup_app_remove_r in Hnd. }
    repeat split.
    + exact Hc.
    + intros y Hy. now rewrite Hrec, (count_occ_NoDup_in _ _ Hndb Hy).
    + intros y Hy. rewrite Hrec, (count_occ_notin _ _ Hy). apply app_nil_r.
    + rewrite Hh, Hset. apply in_or_app. right. now left.
Qed.

(** The theorem above at two connections of which the first cannot be
    written to: the loop throws at connection 1, connection 2 is as before,
    and connection 1 is still in the set. *)
Lemma send_stops_at_first_failure_witness :
  let w := twoSockets firstThrows in
  let r := send VolumeChanged Partial.empty w in
  sockets (hub (snd r)) = [1; 2]
  /\ fst r = Throw
  /\ received (snd r) 2 = received w 2
  /\ In 1 (sockets (hub (snd r))).
Proof.
  intros w r.
  assert (Hnd : NoDup (sockets (hub w))).
  { simpl. repeat constructor; simpl; intuition discriminate. }
  destruct (send_stops_at_first_failure VolumeChanged Partial.empty w Hnd)
    as (Hset & _ & Hfail).
  destruct (Hfail [] 1 [2] eq_refl eq_refl eq_refl) as (Hthrow & _ & Hrest & Hin).
  split; [exact Hset|]. split; [exact Hthrow|]. split; [|exact Hin].
  apply Hrest. intros [].
Defined.

(** C1 is not what the code does.  Connections 1 and 2 are live and the
    [send] of connection 1 throws.  Handling one volume event then ends with
    that exception: connection 2 has received nothing, and connection 1 is
    still in the set. *)
Lemma volume_fanout_aborted_by_first_socket :
  let r := onVolumeChanged volume42Muted (twoSockets firstThrows) in
  fst r = Throw
  /\ received (snd r) 2 = []
  /\ sockets (hub (snd r)) = [1; 2].
Proof. repeat split. Qed.

(** ** Conversions that throw *)

Lemma coalesce_convertible (a d : value) :
  convertible d = true -> convertible (a ?? d) = convertible (a ?? VNull).
Proof. unfold coalesce. intros Hd. destruct (nullish a); [exact Hd|reflexivity]. Qed.

Section ConversionProperties.
Context {engine : Engine}.

(** [String] of an array, one element at a time. *)
Lemma ToString_cons (x : value) (r : list value) :
  ToString (VArray (x :: r))
  = match (if nullish x then Some [] else ToString x) with
    | None => None
    | Some sx =>
        match r with
        | [] => Some sx
        | _ :: _ =>
            match ToString (VArray r) with
            | None => None
            | Some sr => Some (sx ++ lit "," ++ sr)
            end
        end
    end.
Proof. reflexivity. Qed.

Lemma convertible_cons (x : value) (r : list value) :
  convertible (VArray (x :: r))
  = (nullish x || convertible x) && convertible (VArray r).
Proof. reflexivity. Qed.

(** [String(v)] returns exactly on the convertible values. *)
Lemma ToString_defined : forall v : value, defined (ToString v) = convertible v.
Proof.
  fix IH 1. intros [| |[|]|n|s|elems|props]; try reflexivity.
  - induction elems as [|x r IHr]; [reflexivity|].
    rewrite ToString_cons, convertible_cons, <- IHr, <- (IH x). clear IHr.
    destruct (nullish x); [|destruct (ToString x); [|reflexivity]];
      (destruct r as [|y r]; [reflexivity|]);
      now destruct (ToString (VArray (y :: r))).
  - simpl. now destruct (hasOwn "toString" props).
Qed.

(** [Number(v)] returns exactly on the convertible values. *)
Lemma ToNumber_defined (v : value) : defined (ToNumber v) = convertible v.
Proof.
  destruct v as [| |[|]|n|s|elems|props]; try reflexivity;
    rewrite <- ToString_defined; unfold ToNumber;
    now destruct (ToString _).
Qed.

Lemma ToNumber_default (a d : value) :
  convertible d = true ->
  defined (ToNumber (a ?? d)) = convertible (a ?? VNull).
Proof. intros Hd. rewrite ToNumber_defined. now apply coalesce_convertible. Qed.

(** The string that is converted: [(text ?? lyrics ?? text ?? '') ?? '']. *)
Lemma text_convertible (t ly : value) :
  convertible ((t ?? ly ?? t ?? VString []) ?? VString [])
  = convertible (t ?? ly ?? VNull).
Proof.
  unfold coalesce.
  destruct (nullish t) eqn:Ht; [|now rewrite Ht].
  destruct (nullish ly) eqn:Hly; [reflexivity|now rewrite Hly].
Qed.

(** What a lyric that [normalizeLyric] returns is made of. *)
Lemma normalizeLyric_inv (payload : value) (song : option SongInfo) (now : float)
    (l : Lyric.t) :
  normalizeLyric payload song now = Some l ->
  let line := get payload "line" ?? VNull in
  exists idx timeInMs duration text timestamp,
    ToNumber (get payload "index" ?? VNumber (-1)%float) = Some idx
    /\ ToNumber (get line "timeInMs" ?? get line "time" ?? VNumber nan) = Some timeInMs
    /\ ToNumber (get line "duration" ?? VNumber 0%float) = Some duration
    /\ ToString ((get line "text" ?? get line "lyrics" ?? get line "text" ?? VString [])
                 ?? VString []) = Some text
    /\ ToNumber (get payload "timestamp" ?? VNumber now) = Some timestamp
    /\ l = {| Lyric.index := if ge0 idx then Some idx else None;
              Lyric.text := text;
              Lyric.timeInMs := if isNaN timeInMs then 0%float else timeInMs;
              Lyric.duration := if isNaN duration then 0%float else duration;
              Lyric.isSynced :=
                jstype_eqb (typeof (get line "timeInMs")) TypeNumber
                || jstype_eqb (typeof (get line "time")) TypeString;
              Lyric.song := songRef song;
              Lyric.timestamp := timestamp;
              Lyric.provider := get payload "provider" ?? VNull;
              Lyric.romanized := get payload "romanized" ?? VNull |}.
Proof.
  intros H line. unfold normalizeLyric in H. fold line in H.
  destruct (ToNumber (get payload "index" ?? VNumber (-1)%float)) as [idx|];
    [|discriminate].
  destruct (ToNumber (get line "timeInMs" ?? get line "time" ?? VNumber nan))
    as [timeInMs|]; [|discriminate].
  destruct (ToNumber (get line "duration" ?? VNumber 0%float)) as [duration|];
    [|discriminate].
  destruct (ToString _) as [text|]; [|discriminate].
  destruct (ToNumber (get payload "timestamp" ?? VNumber now)) as [timestamp|];
    [|discriminate].
  exists idx, timeInMs, duration, text, timestamp.
  injection H as <-. repeat split.
Qed.

(** [normalizeLyric] returns a lyric exactly on the normalisable payloads. *)
Lemma normalizeLyric_defined (payload : value) (song : option SongInfo) (now : float) :
  defined (normalizeLyric payload song now) = normalizable payload.
Proof.
  unfold normalizable. cbv zeta.
  set (line := get payload "line" ?? VNull).
  rewrite <- (ToNumber_default (get payload "index") (VNumber (-1)%float) eq_refl).
  rewrite <- (ToNumber_default (get payload "timestamp") (VNumber now) eq_refl).
  rewrite <- (ToNumber_default (get line "duration") (VNumber 0%float) eq_refl).
  rewrite <- (text_convertible (get line "text") (get line "lyrics")).
  rewrite <- (ToString_defined
                ((get line "text" ?? get line "lyrics" ?? get line "text" ?? VString [])
                 ?? VString [])).
  assert (Htime : convertible (get line "timeInMs" ?? get line "time" ?? VNull)
                  = defined (ToNumber (get line "timeInMs" ?? get line "time"
                                       ?? VNumber nan))).
  { rewrite ToNumber_defined. unfold coalesce.
    destruct (nullish (get line "timeInMs")); [|reflexivity].
    now destruct (nullish (get line "time")). }
  rewrite Htime. unfold normalizeLyric. fold line.
  destruct (ToNumber (get payload "index" ?? VNumber (-1)%float)); [|reflexivity].
  destruct (ToNumber (get line "timeInMs" ?? get line "time" ?? VNumber nan));
    [|reflexivity].
  destruct (ToNumber (get line "duration" ?? VNumber 0%float)); [|reflexivity].
  destruct (ToString _); [|reflexivity].
  now destruct (ToNumber (get payload "timestamp" ?? VNumber now)).
Qed.

Lemma normalizeLyric_None_iff (payload : value) (song : option SongInfo) (now : float) :
  normalizeLyric payload song now = None <-> normalizable payload = false.
Proof.
  rewrite <- (normalizeLyric_defined payload song now).
  destruct (normalizeLyric payload song now); simpl; split; intros; easy.
Qed.

Lemma normalizeLyric_Some_iff (payload : value) (song : option SongInfo) (now : float) :
  (exists l, normalizeLyric payload song now = Some l) <-> normalizable payload = true.
Proof.
  rewrite <- (normalizeLyric_defined payload song now).
  destruct (normalizeLyric payload song now) as [l|]; simpl; split; intros H;
    try easy; [now exists l|now destruct H].
Qed.

End ConversionProperties.

(** ** The normaliser *)

Section NormalizerProperties.
Context {engine : Engine}.

Lemma absent_get (payload : value) (k : string) :
  absent payload k = true -> get payload k = VUndefined.
Proof.
  unfold absent, get. destruct payload; try reflexivity.
  destruct (lookup (lit k) props); [discriminate|reflexivity].
Qed.

(** Reading a field of [payload?.line ?? null]. *)
Lemma get_line_field (payload : value) (k : string) :
  get (get payload "line" ?? VNull) k
  = match rawLineField payload k with
    | Some x => x
    | None => VUndefined
    end.
Proof.
  unfold rawLineField, get at 2.
  destruct payload; try reflexivity.
  destruct (lookup (lit "line") props) as [line|]; [|reflexivity].
  destruct line; reflexivity.
Qed.

Lemma typeof_number (v : value) :
  jstype_eqb (typeof v) TypeNumber = true <-> exists n, v = VNumber n.
Proof.
  split.
  - destruct v; simpl; try discriminate. intros _. now exists n.
  - intros [n ->]. reflexivity.
Qed.

Lemma typeof_string (v : value) :
  jstype_eqb (typeof v) TypeString = true <-> exists s, v = VString s.
Proof.
  split.
  - destruct v; simpl; try discriminate. intros _. now exists s.
  - intros [s ->]. reflexivity.
Qed.

(** What the conversions give when a field is missing. *)
Lemma missing_index_number (payload : value) :
  absent payload "index" = true ->
  ToNumber (get payload "index" ?? VNumber (-1)%float) = Some (-1)%float.
Proof. intros H. now rewrite (absent_get _ _ H). Qed.

Lemma missing_timestamp_number (payload : value) (now : float) :
  absent payload "timestamp" = true ->
  ToNumber (get payload "timestamp" ?? VNumber now) = Some now.
Proof. intros H. now rewrite (absent_get _ _ H). Qed.

Lemma missing_line (payload : value) :
  absent payload "line" = true -> get payload "line" ?? VNull = VNull.
Proof. intros H. now rewrite (absent_get _ _ H). Qed.

(** C5 (as amended).  Normalisation never throws.  It returns [null]
    exactly when one of its conversions throws, that is when the payload is
    not normalisable, and a lyric otherwise.  In the lyric each field the
    payload lacks takes the default of that field alone: [index] is [null]
    when [index] is missing; [text] is empty, [timeInMs] and [duration] are
    [0] and [isSynced] is [false] when [line] is missing; [timestamp] is the
    time of the call when [timestamp] is missing.  A payload that lacks all
    three always gives a lyric, with all these defaults. *)
Theorem normalizeLyric_missing_fields (payload : value) (song : option SongInfo)
    (now : float) :
  (normalizeLyric payload song now = None <-> normalizable payload = false)
  /\ (forall l,
        normalizeLyric payload song now = Some l ->
        (absent payload "index" = true -> Lyric.index l = None)
        /\ (absent payload "line" = true ->
            Lyric.text l = [] /\ Lyric.timeInMs l = 0%float
            /\ Lyric.duration l = 0%float /\ Lyric.isSynced l = false)
        /\ (absent payload "timestamp" = true -> Lyric.timestamp l = now))
  /\ (absent payload "index" = true ->
      absent payload "line" = true ->
      absent payload "timestamp" = true ->
      exists l,
        normalizeLyric payload song now = Some l
        /\ Lyric.index l = None /\ Lyric.text l = []
        /\ Lyric.timeInMs l = 0%float /\ Lyric.duration l = 0%float
        /\ Lyric.timestamp l = now).
Proof.
  assert (Hfields : forall l,
            normalizeLyric payload song now = Some l ->
            (absent payload "index" = true -> Lyric.index l = None)
            /\ (absent payload "line" = true ->
                Lyric.text l = [] /\ Lyric.timeInMs l = 0%float
                /\ Lyric.duration l = 0%float /\ Lyric.isSynced l = false)
            /\ (absent payload "timestamp" = true -> Lyric.timestamp l = now)).
  { intros l Hl.
    pose proof (normalizeLyric_inv payload song now l Hl) as Hinv. cbv zeta in Hinv.
    destruct Hinv as (idx & tms & dur & txt & ts & Hidx & Htms & Hdur & Htxt & Hts & ->).
    simpl. split; [|split].
    - intros H. rewrite (missing_index_number payload H) in Hidx.
      injection Hidx as <-. reflexivity.
    - intros H. rewrite (missing_line payload H) in Htms, Hdur, Htxt |- *.
      simpl in Htms, Hdur, Htxt.
      injection Htms as <-. injection Hdur as <-. injection Htxt as <-.
      repeat split.
    - intros H. rewrite (missing_timestamp_number payload now H) in Hts.
      now injection Hts as <-. }
  split; [apply normalizeLyric_None_iff|]. split; [exact Hfields|].
  intros Hi Hl Ht.
  assert (Hn : normalizable payload = true).
  { unfold normalizable. cbv zeta.
    rewrite (missing_line payload Hl), (absent_get _ _ Hi), (absent_get _ _ Ht).
    reflexivity. }
  apply normalizeLyric_Some_iff with (song := song) (now := now) in Hn.
  destruct Hn as (l & Hrun). exists l. split; [exact Hrun|].
  destruct (Hfields l Hrun) as (Hindex & Hline & Htime).
  destruct (Hline Hl) as (Htext & Hms & Hdur & _).
  repeat split; try assumption; [now apply Hindex|now apply Htime].
Qed.

(** A payload that lacks only [timestamp] keeps what its other fields say,
    whatever the engine. *)
Lemma normalizeLyric_timedLineNoTimestamp (now : float) :
  normalizeLyric timedLineNoTimestamp None now
  = Some {| Lyric.index := Some 3%float;
            Lyric.text := lit "hi";
            Lyric.timeInMs := 1000%float;
            Lyric.duration := 500%float;
            Lyric.isSynced := true;
            Lyric.song := None;
            Lyric.timestamp := now;
            Lyric.provider := VNull;
            Lyric.romanized := VNull |}.
Proof. reflexivity. Qed.

(** A payload whose [index] owns a [toString] is answered with [null],
    whatever the engine. *)
Lemma normalizeLyric_unconvertibleIndex (song : option SongInfo) (now : float) :
  normalizeLyric unconvertibleIndex song now = None.
Proof. reflexivity. Qed.

(** C7.  Normalisation returns a lyric exactly on the normalisable
    payloads, and the lyric it returns is synced exactly when the raw nested
    line object has a [timeInMs] that is a number or a [time] that is a
    string; with neither field it is not synced, whatever [timeInMs] came
    out. *)
Theorem normalizeLyric_isSynced (payload : value) (song : option SongInfo)
    (now : float) :
  ((exists l, normalizeLyric payload song now = Some l)
   <-> normalizable payload = true)
  /\ forall l,
       normalizeLyric payload song now = Some l ->
       (Lyric.isSynced l = true <->
        (exists n, rawLineField payload "timeInMs" = Some (VNumber n))
        \/ (exists s, rawLineField payload "time" = Some (VString s)))
       /\ (rawLineField payload "timeInMs" = None ->
           rawLineField payload "time" = None ->
           Lyric.isSynced l = false).
Proof.
  split; [apply normalizeLyric_Some_iff|].
  intros l Hl.
  pose proof (normalizeLyric_inv payload song now l Hl) as Hinv. cbv zeta in Hinv.
  destruct Hinv as (idx & tms & dur & txt & ts & _ & _ & _ & _ & _ & ->).
  simpl. rewrite !get_line_field. split.
  - rewrite orb_true_iff, typeof_number, typeof_string.
    split; (intros [[x Hx]|[x Hx]]; [left|right]; exists x).
    + destruct (rawLineField payload "timeInMs"); [now subst|discriminate].
    + destruct (rawLineField payload "time"); [now subst|discriminate].
    + now rewrite Hx.
    + now rewrite Hx.
  - intros -> ->. reflexivity.
Qed.

(** A numeric [time] gives the lyric its [timeInMs] and still leaves it
    unsynced. *)
Lemma numericTimeLine_not_synced (now : float) :
  exists l,
    normalizeLyric numericTimeLine None now = Some l
    /\ Lyric.timeInMs l = 5000%float
    /\ Lyric.isSynced l = false.
Proof. eexists. repeat split. Qed.

End NormalizerProperties.

(** ** Splitting and trimming *)

Lemma split_nonempty (sep : N -> bool) (s : jsstring) : split sep s <> [].
Proof.
  destruct s as [|c r]; simpl; [discriminate|].
  destruct (sep c); [discriminate|].
  destruct (split sep r); discriminate.
Qed.

(** No segment contains a separator. *)
Lemma split_segments (sep : N -> bool) (s : jsstring) :
  Forall (fun seg => forallb (fun c => negb (sep c)) seg = true) (split sep s).
Proof.
  induction s as [|c r IH]; simpl.
  - constructor; [reflexivity|constructor].
  - destruct (sep c) eqn:Hc.
    + constructor; [reflexivity|exact IH].
    + destruct (split sep r) as [|seg segs].
      * constructor; [simpl; now rewrite Hc|constructor].
      * inversion IH as [|? ? Hseg Hsegs]; subst.
        constructor; [simpl; now rewrite Hc|exact Hsegs].
Qed.

(** There is one segment more than there are separators. *)
Lemma split_length (sep : N -> bool) (s : jsstring) :
  List.length (split sep s) = S (List.length (filter sep s)).
Proof.
  induction s as [|c r IH]; simpl; [reflexivity|].
  destruct (sep c); simpl; [now rewrite IH|].
  pose proof (split_nonempty sep r) as Hne.
  destruct (split sep r) as [|seg segs]; [contradiction|].
  exact IH.
Qed.

(** The segments, put end to end, are the string without its separators. *)
Lemma split_concat (sep : N -> bool) (s : jsstring) :
  List.concat (split sep s) = filter (fun c => negb (sep c)) s.
Proof.
  induction s as [|c r IH]; simpl; [reflexivity|].
  destruct (sep c); simpl; [exact IH|].
  pose proof (split_nonempty sep r) as Hne.
  destruct (split sep r) as [|seg segs]; [contradiction|].
  simpl in *. now rewrite IH.
Qed.

Lemma trimStart_spec (s : jsstring) :
  exists a, s = a ++ trimStart s
            /\ forallb isWhiteSpace a = true
            /\ match trimStart s with
               | c :: _ => isWhiteSpace c = false
               | [] => True
               end.
Proof.
  induction s as [|c r (a & Hs & Ha & Hhd)]; simpl.
  - exists []. repeat split.
  - destruct (isWhiteSpace c) eqn:Hc.
    + exists (c :: a). simpl. rewrite Hc, Ha. repeat split; [now f_equal|exact Hhd].
    + exists []. repeat split. exact Hc.
Qed.

(** [trim] removes white space from both ends and nothing else. *)
Lemma trim_spec (s : jsstring) :
  exists a b,
    s = a ++ trim s ++ b
    /\ forallb isWhiteSpace a = true
    /\ forallb isWhiteSpace b = true
    /\ match trim s with
       | c :: _ => isWhiteSpace c = false
       | [] => True
       end
    /\ match rev (trim s) with
       | c :: _ => isWhiteSpace c = false
       | [] => True
       end.
Proof.
  destruct (trimStart_spec s) as (a & Hs & Ha & Hhd).
  destruct (trimStart_spec (rev (trimStart s))) as (b & Hr & Hb & Hlast).
  exists a, (rev b). unfold trim, trimEnd.
  assert (Hmid : trimStart s = rev (trimStart (rev (trimStart s))) ++ rev b).
  { rewrite <- rev_app_distr, <- Hr. now rewrite rev_involutive. }
  repeat split.
  - now rewrite <- Hmid.
  - exact Ha.
  - rewrite forallb_forall in *. intros x Hx. apply Hb. now apply in_rev.
  - destruct (rev (trimStart (rev (trimStart s)))) as [|c t] eqn:Ht; [exact I|].
    rewrite Hmid in Hhd. exact Hhd.
  - rewrite rev_involutive. exact Hlast.
Qed.

Lemma trimStart_fixed (s : jsstring) :
  match s with c :: _ => isWhiteSpace c = false | [] => True end ->
  trimStart s = s.
Proof. destruct s as [|c r]; simpl; [reflexivity|]. now intros ->. Qed.

Lemma trim_fixed (s : jsstring) : trimmed s -> trim s = s.
Proof.
  intros (Hhd & Hlast). unfold trim, trimEnd.
  rewrite (trimStart_fixed s Hhd), (trimStart_fixed (rev s) Hlast).
  apply rev_involutive.
Qed.

Lemma trim_trimmed (s : jsstring) : trimmed (trim s).
Proof.
  destruct (trim_spec s) as (a & b & _ & _ & _ & Hhd & Hlast). now split.
Qed.

Lemma trim_keeps_forallb (p : N -> bool) (s : jsstring) :
  forallb p s = true -> forallb p (trim s) = true.
Proof.
  destruct (trim_spec s) as (a & b & Hs & _).
  intros H. rewrite Hs in H. rewrite !forallb_app in H.
  apply andb_true_iff in H. destruct H as (_ & H).
  apply andb_true_iff in H. now destruct H.
Qed.

(** What [splitArtists] returns for a non-empty artist string. *)
Lemma splitArtists_spec (artist : jsstring) :
  artist <> [] ->
  List.length (splitArtists artist)
  = S (List.length (filter ampersand_or_comma artist))
  /\ Forall (fun a =>
               forallb (fun c => negb (ampersand_or_comma c)) a = true
               /\ trimmed a
               /\ trim a = a)
            (splitArtists artist).
Proof.
  intros Hne. unfold splitArtists.
  destruct artist as [|c r]; [now contradiction Hne|].
  change (str_truthy (c :: r)) with true. cbv iota.
  split.
  - now rewrite length_map, split_length.
  - apply Forall_map.
    eapply Forall_impl; [|apply split_segments].
    intros seg Hseg. split; [now apply trim_keeps_forallb|].
    split; [apply trim_trimmed|]. apply trim_fixed, trim_trimmed.
Qed.

(** ** The song of a lyric *)

Section SongProperties.
Context {engine : Engine}.

(** C9.  With a current song whose artist string is ["A & B, C"], every
    lyric that normalisation returns, and it returns one on every normalisable
    payload, has a song with the artists ["A"], ["B"], ["C"] in that order and
    the song's title and video id as they are.  For any current song the
    title and the video id are passed through; a non-empty artist string
    gives one artist per segment between the characters [&] and [,], none
    containing a separator and none with white space at either end, and an
    empty artist string gives no artist. *)
Theorem normalizeLyric_song_artists (payload : value) (now : float)
    (t v : jsstring) (p : option bool) (e : option float) (song : SongInfo) :
  (forall l,
     normalizeLyric payload (Some (mkSongInfo t (lit "A & B, C") v p e)) now = Some l ->
     Lyric.song l = Some (mkSongRef t [lit "A"; lit "B"; lit "C"] v))
  /\ (normalizable payload = true ->
      exists l,
        normalizeLyric payload (Some (mkSongInfo t (lit "A & B, C") v p e)) now = Some l
        /\ Lyric.song l = Some (mkSongRef t [lit "A"; lit "B"; lit "C"] v))
  /\ (forall l,
        normalizeLyric payload (Some song) now = Some l ->
        exists ref,
          Lyric.song l = Some ref
          /\ ref_title ref = title song
          /\ ref_videoId ref = videoId song
          /\ (artist song = [] -> artists ref = [])
          /\ (artist song <> [] ->
              List.length (artists ref)
              = S (List.length (filter ampersand_or_comma (artist song)))
              /\ Forall (fun a =>
                           forallb (fun c => negb (ampersand_or_comma c)) a = true
                           /\ trimmed a)
                        (artists ref))).
Proof.
  assert (Hsong : forall s l,
            normalizeLyric payload (Some s) now = Some l ->
            Lyric.song l = Some (mkSongRef (title s) (splitArtists (artist s)) (videoId s))).
  { intros s l Hl.
    pose proof (normalizeLyric_inv payload (Some s) now l Hl) as Hinv. cbv zeta in Hinv.
    destruct Hinv as (idx & tms & dur & txt & ts & _ & _ & _ & _ & _ & ->).
    reflexivity. }
  split; [|split].
  - intros l Hl. exact (Hsong _ l Hl).
  - intros Hn.
    apply normalizeLyric_Some_iff
      with (song := Some (mkSongInfo t (lit "A & B, C") v p e)) (now := now) in Hn.
    destruct Hn as (l & Hl). exists l. split; [exact Hl|exact (Hsong _ l Hl)].
  - intros l Hl. eexists. split; [exact (Hsong song l Hl)|]. simpl.
    split; [reflexivity|]. split; [reflexivity|]. split.
    + intros ->. reflexivity.
    + intros Hne. destruct (splitArtists_spec (artist song) Hne) as (Hlen & Hall).
      split; [exact Hlen|].
      eapply Forall_impl; [|exact Hall]. intros a (Hsep & Htrim & _). now split.
Qed.

End SongProperties.

(** C5 is not what the code does.  The payload
    [{ index: 3, line: { text: 'hi', timeInMs: 1000, duration: 500 } }] lacks
    [timestamp]; its normalised lyric has index [3], time [1000] and
    duration [500], none of them the default.  The payload
    [{ index: { toString: null } }] lacks [line] and [timestamp];
    normalisation answers [null], and no lyric. *)
Lemma missing_timestamp_keeps_index_and_timing :
  absent timedLineNoTimestamp "timestamp" = true
  /\ @normalizeLyric exampleEngine timedLineNoTimestamp None 0%float
     = Some {| Lyric.index := Some 3%float;
               Lyric.text := lit "hi";
               Lyric.timeInMs := 1000%float;
               Lyric.duration := 500%float;
               Lyric.isSynced := true;
               Lyric.song := None;
               Lyric.timestamp := 0%float;
               Lyric.provider := VNull;
               Lyric.romanized := VNull |}
  /\ absent unconvertibleIndex "line" = true
  /\ absent unconvertibleIndex "timestamp" = true
  /\ @normalizeLyric exampleEngine unconvertibleIndex None 0%float = None.
Proof.
  split; [reflexivity|].
  split; [exact (@normalizeLyric_timedLineNoTimestamp exampleEngine 0%float)|].
  split; [reflexivity|]. split; [reflexivity|].
  exact (@normalizeLyric_unconvertibleIndex exampleEngine None 0%float).
Qed.

(** ** The handlers, one by one *)


(** Brings the facts of [send_spec] into the context for the [send] the
    goal runs, and names its outcome. *)
Ltac run_send :=
  match goal with
  | |- context [send ?ty ?st ?w] =>
      let H := fresh "Hsend" in
      let c := fresh "c" in
      let w' := fresh "w'" in
      pose proof (send_spec ty st w) as H;
      destruct (send ty st w) as [c w'];
      simpl in H;
      destruct H as (? & ? & ? & ? & ?)
  end.

Ltac run_forEach :=
  match goal with
  | |- context [forEach (fun socket => socket_send socket ?m) ?l ?w] =>
      let H := fresh "Hsend" in
      let c := fresh "c" in
      let w' := fresh "w'" in
      pose proof (forEach_send m l w) as H;
      destruct (forEach (fun socket => socket_send socket m) l w) as [c w'];
      simpl in H;
      destruct H as (? & ? & ? & ? & ?)
  end.

(** The route: the renderer is asked once per request, the answer is a
    response in every case, and the response shows [lastLyrics] as the handler
    leaves it. *)
Lemma currentLyricHandler_spec (r : RendererResult) (w : World) :
  exists resp w',
    currentLyricHandler r w = (Normal resp, w')
    /\ rendererCalls w' = S (rendererCalls w)
    /\ received w' = received w
    /\ throws w' = throws w
    /\ status resp = 200
    /\ available resp = truthy_lyrics (lastLyrics (hub w'))
    /\ lyric resp = lastLyrics (hub w')
    /\ hub w' = match r with
                | Resolved (Some res) =>
                    set_lastLyrics (Some (scrapedLyric res (lastSongInfo (hub w)))) (hub w)
                | _ => hub w
                end.
Proof.
  destruct r as [|[res|]]; do 2 eexists; (split; [reflexivity|]); simpl;
    repeat split.
Qed.

(** ** The current-lyric route *)

(** C2 (as amended).  Every request to the route asks the renderer for the
    line on screen, whether or not a lyric has been pushed before, and is
    answered with status 200 and [{ available, lyric }], never with an error.
    When the renderer fails or finds no line, the hub is left as it was and
    the answer carries the stored lyric unchanged.  When the renderer returns
    a line, that line replaces the stored lyric and is the one answered. *)
Theorem currentLyric_refresh_on_every_request (r : RendererResult) (w : World) :
  exists resp w',
    currentLyricHandler r w = (Normal resp, w')
    /\ rendererCalls w' = S (rendererCalls w)
    /\ status resp = 200
    /\ available resp = truthy_lyrics (lyric resp)
    /\ (r = Rejected \/ r = Resolved None ->
        hub w' = hub w /\ lyric resp = lastLyrics (hub w))
    /\ (forall res, r = Resolved (Some res) ->
        lastLyrics (hub w') = Some (scrapedLyric res (lastSongInfo (hub w)))
        /\ lyric resp = lastLyrics (hub w')).
Proof.
  destruct (currentLyricHandler_spec r w)
    as (resp & w' & Hrun & Hcalls & _ & _ & Hst & Hav & Hly & Hhub).
  exists resp, w'.
  split; [exact Hrun|]. split; [exact Hcalls|]. split; [exact Hst|].
  split; [now rewrite Hav, Hly|]. split.
  - intros [-> | ->]; (split; [exact Hhub|now rewrite Hly, Hhub]).
  - intros res ->. split; [now rewrite Hhub|exact Hly].
Qed.

(** C10.  The answer of the route says [available: true] exactly when its
    [lyric] is not [null]. *)
Theorem currentLyric_available_iff_lyric (r : RendererResult) (w : World) :
  exists resp w',
    currentLyricHandler r w = (Normal resp, w')
    /\ (available resp = true <-> lyric resp <> None).
Proof.
  destruct (currentLyricHandler_spec r w)
    as (resp & w' & Hrun & _ & _ & _ & _ & Hav & Hly & _).
  exists resp, w'. split; [exact Hrun|].
  rewrite Hav, Hly. destruct (lastLyrics (hub w')); simpl.
  - split; [discriminate|reflexivity].
  - split; [discriminate|]. intros H. now contradiction H.
Qed.

Section RouteExamples.
Context {engine : Engine}.

(** A lyric is pushed, then the route is requested while a line is on
    screen: the renderer is asked, and its line takes the place of the pushed
    lyric, in the hub and in the answer.  This holds with any engine. *)
Lemma pushed_then_requested :
  let w1 := run [SyncedLyricsCurrent pushedPayload 5%float] (initialWorld noneThrows) in
  let r := currentLyricHandler (Resolved (Some scrapedOnScreen)) w1 in
  option_map Lyric.text (lastLyrics (hub w1)) = Some (lit "pushed")
  /\ rendererCalls w1 = 0
  /\ rendererCalls (snd r) = 1
  /\ fst r = Normal (mkResponse 200 true (Some (scrapedLyric scrapedOnScreen None)))
  /\ option_map Lyric.text (lastLyrics (hub (snd r))) = Some (lit "scraped").
Proof. repeat split. Qed.

End RouteExamples.

(** C2 is not what the code does.  After a pushed lyric ["pushed"], a
    request to the route still runs the script in the renderer (one call
    counted), and the scraped line ["scraped"] replaces the pushed lyric in
    the hub and is what the route answers. *)
Lemma refresh_runs_after_a_pushed_lyric :
  let w1 := @run exampleEngine [SyncedLyricsCurrent pushedPayload 5%float]
              (initialWorld noneThrows) in
  let r := currentLyricHandler (Resolved (Some scrapedOnScreen)) w1 in
  option_map Lyric.text (lastLyrics (hub w1)) = Some (lit "pushed")
  /\ rendererCalls w1 = 0
  /\ rendererCalls (snd r) = 1
  /\ fst r = Normal (mkResponse 200 true (Some (scrapedLyric scrapedOnScreen None)))
  /\ option_map Lyric.text (lastLyrics (hub (snd r))) = Some (lit "scraped").
Proof. exact (@pushed_then_requested exampleEngine). Qed.

(** ** One step of the hub *)

Section StepProperties.
Context {engine : Engine}.

Ltac unfold_handlers :=
  unfold step, handle, onSongInfo, onSyncedLyricsCurrent, onVolumeChanged,
    onRepeatChanged, onSeeked, onShuffleChanged, onClose,
    bind, writeHub, readHub, ret; simpl.

(** Closes the goals of a frame lemma once the outcome of the handler's
    fan-out is in the context. *)
Ltac frame_goals :=
  simpl; repeat split; intros; simpl; try discriminate; try congruence;
  match goal with
  | Hh : hub _ = _ |- _ => rewrite Hh; simpl; congruence
  end.

(** What a new connection is sent, and that nobody else is sent anything. *)
Lemma onOpen_spec (w : World) (ws : WS) :
  hub (step w (Open ws)) = set_sockets (sockets_add ws (sockets (hub w))) (hub w)
  /\ throws (step w (Open ws)) = throws w
  /\ forall s,
       received (step w (Open ws)) s
       = received w s
         ++ (if Nat.eqb s ws
             then if throws w ws then []
                  else [PlayerInfoMessage (snapshot (hub w));
                        lyricBaseline (lastLyrics (hub w))]
             else []).
Proof.
  unfold step, handle, onOpen, bind, writeHub, readHub, socket_send, snapshot; simpl.
  destruct (throws w ws) eqn:Hthr; simpl.
  - repeat split. intros s. destruct (Nat.eqb s ws); now rewrite app_nil_r.
  - destruct (lastLyrics (hub w)) as [l|]; simpl; rewrite ?Hthr; simpl;
      (repeat split; intros s; destruct (Nat.eqb s ws); simpl;
       [now rewrite <- app_assoc | now rewrite app_nil_r]).
Qed.

(** The lyric listener: nothing happens when normalisation answers [null];
    otherwise the lyric is stored, then fanned out. *)
Lemma onSyncedLyricsCurrent_spec (payload : value) (now : float) (w : World) :
  match normalizeLyric payload (lastSongInfo (hub w)) now with
  | None => step w (SyncedLyricsCurrent payload now) = w
  | Some l =>
      hub (step w (SyncedLyricsCurrent payload now)) = set_lastLyrics (Some l) (hub w)
      /\ throws (step w (SyncedLyricsCurrent payload now)) = throws w
      /\ rendererCalls (step w (SyncedLyricsCurrent payload now)) = rendererCalls w
      /\ forall s,
           received (step w (SyncedLyricsCurrent payload now)) s
           = received w s
             ++ repeat (LyricsMessage l)
                  (count_occ Nat.eq_dec (reached (throws w) (sockets (hub w))) s)
  end.
Proof.
  unfold step, handle, onSyncedLyricsCurrent, bind, readHub. simpl.
  destruct (normalizeLyric payload (lastSongInfo (hub w)) now) as [l|]; [|reflexivity].
  unfold writeHub. simpl. run_forEach. simpl. repeat split; assumption.
Qed.

(** Every handler leaves [throws] alone and writes only its own variables;
    [lastLyrics], once cleared, stays cleared until an event of
    [writes_lyrics]. *)
Lemma step_frame (e : Event) (w : World) :
  throws (step w e) = throws w
  /\ (is_volume_event e = false -> volumeState (hub (step w e)) = volumeState (hub w))
  /\ (is_repeat_event e = false -> repeat_ (hub (step w e)) = repeat_ (hub w))
  /\ (is_shuffle_event e = false -> shuffle (hub (step w e)) = shuffle (hub w))
  /\ (is_songinfo_event e = false -> lastSongInfo (hub (step w e)) = lastSongInfo (hub w))
  /\ (writes_lyrics e = false -> lastLyrics (hub w) = None ->
      lastLyrics (hub (step w e)) = None).
Proof.
  destruct e as [songInfo event|payload now|v|mode|t|b|ws|ws|r].
  - destruct event; unfold_handlers; run_send; destruct c; frame_goals.
  - pose proof (onSyncedLyricsCurrent_spec payload now w) as Hs.
    pose proof (normalizeLyric_defined payload (lastSongInfo (hub w)) now) as Hd.
    destruct (normalizeLyric payload (lastSongInfo (hub w)) now) as [l|].
    + destruct Hs as (Hh & Ht & _). simpl in Hd.
      repeat split; intros; try assumption; try (now rewrite Hh).
      simpl in *. congruence.
    + rewrite Hs. repeat split; intros; try reflexivity; assumption.
  - unfold_handlers. run_send. frame_goals.
  - unfold_handlers. run_send. frame_goals.
  - unfold_handlers. run_send. frame_goals.
  - unfold_handlers. run_send. frame_goals.
  - destruct (onOpen_spec w ws) as (Hh & Ht & _).
    repeat split; intros; try assumption; rewrite Hh; simpl; congruence.
  - unfold_handlers. repeat split; intros; congruence.
  - unfold step, handle, bind.
    destruct (currentLyricHandler_spec r w)
      as (resp & w' & Hrun & _ & _ & Ht & _ & _ & _ & Hh).
    rewrite Hrun. simpl.
    repeat split; intros; try assumption;
      destruct r as [|[res|]]; try discriminate; rewrite Hh; simpl; congruence.
Qed.


(** ** Runs *)

Lemma run_app (evs1 evs2 : list Event) (w : World) :
  run (evs1 ++ evs2) w = run evs2 (run evs1 w).
Proof. unfold run. apply fold_left_app. Qed.

Lemma run_throws (evs : list Event) (w : World) :
  throws (run evs w) = throws w.
Proof.
  revert w. induction evs as [|e evs IH]; intros w; simpl; [reflexivity|].
  rewrite IH. apply step_frame.
Qed.


(** A variable keeps its value over a run without the events that write it. *)
Lemma run_frame (evs : list Event) (w : World) :
  (none_of is_volume_event evs = true ->
   volumeState (hub (run evs w)) = volumeState (hub w))
  /\ (none_of is_repeat_event evs = true ->
      repeat_ (hub (run evs w)) = repeat_ (hub w))
  /\ (none_of is_shuffle_event evs = true ->
      shuffle (hub (run evs w)) = shuffle (hub w))
  /\ (none_of is_songinfo_event evs = true ->
      lastSongInfo (hub (run evs w)) = lastSongInfo (hub w))
  /\ (none_of writes_lyrics evs = true -> lastLyrics (hub w) = None ->
      lastLyrics (hub (run evs w)) = None).
Proof.
  revert w. induction evs as [|e evs IH]; intros w; simpl.
  - repeat split; intros; try reflexivity; assumption.
  - destruct (step_frame e w) as (_ & Fv & Fr & Fs & Fi & Fl).
    destruct (IH (step w e)) as (Rv & Rr & Rs & Ri & Rl).
    repeat split; intros Hnone; apply andb_true_iff in Hnone;
      destruct Hnone as [He Hevs]; apply negb_true_iff in He.
    + now rewrite Rv, Fv.
    + now rewrite Rr, Fr.
    + now rewrite Rs, Fs.
    + now rewrite Ri, Fi.
    + intros Hnil. apply Rl; [assumption|]. now apply Fl.
Qed.

(** [sockets] is a set in every hub a run reaches: it changes on [Open]
    and [Close] only, by [add] and [delete]. *)
Lemma step_sockets (e : Event) (w : World) :
  sockets (hub (step w e))
  = match e with
    | Open ws => sockets_add ws (sockets (hub w))
    | Close ws => sockets_delete ws (sockets (hub w))
    | _ => sockets (hub w)
    end.
Proof.
  destruct e as [songInfo event|payload now|v|mode|t|b|ws|ws|r].
  - destruct event; unfold_handlers; run_send; destruct c; simpl;
      match goal with Hh : hub _ = _ |- _ => now rewrite Hh end.
  - pose proof (onSyncedLyricsCurrent_spec payload now w) as Hs.
    destruct (normalizeLyric payload (lastSongInfo (hub w)) now) as [l|].
    + destruct Hs as (Hh & _). now rewrite Hh.
    + now rewrite Hs.
  - unfold_handlers. run_send. simpl.
    match goal with Hh : hub _ = _ |- _ => now rewrite Hh end.
  - unfold_handlers. run_send. simpl.
    match goal with Hh : hub _ = _ |- _ => now rewrite Hh end.
  - unfold_handlers. run_send. simpl.
    match goal with Hh : hub _ = _ |- _ => now rewrite Hh end.
  - unfold_handlers. run_send. simpl.
    match goal with Hh : hub _ = _ |- _ => now rewrite Hh end.
  - destruct (onOpen_spec w ws) as (Hh & _). now rewrite Hh.
  - unfold_handlers. reflexivity.
  - unfold step, handle, bind.
    destruct (currentLyricHandler_spec r w)
      as (resp & w' & Hrun & _ & _ & _ & _ & _ & _ & Hh).
    rewrite Hrun. simpl. rewrite Hh. now destruct r as [|[res|]].
Qed.

Lemma run_sockets_NoDup (evs : list Event) (w : World) :
  NoDup (sockets (hub w)) -> NoDup (sockets (hub (run evs w))).
Proof.
  revert w. induction evs as [|e evs IH]; intros w Hnd; simpl; [exact Hnd|].
  apply IH. rewrite step_sockets.
  destruct e; try exact Hnd.
  - now apply ListSet.set_add_nodup.
  - now apply ListSet.set_remove_nodup.
Qed.

Lemma reachable_sockets_NoDup (throws : WS -> bool) (evs : list Event) :
  NoDup (sockets (hub (run evs (initialWorld throws)))).
Proof. apply run_sockets_NoDup. constructor. Qed.

(** A fan-out in which no [send] throws reaches every connection once. *)
Lemma delivered_once (m : Message) (w : World) (s : WS) :
  NoDup (sockets (hub w)) ->
  existsb (throws w) (sockets (hub w)) = false ->
  In s (sockets (hub w)) ->
  repeat m (count_occ Nat.eq_dec (reached (throws w) (sockets (hub w))) s) = [m].
Proof.
  intros Hnd Hnone Hin.
  now rewrite (reached_all _ _ Hnone), (count_occ_NoDup_in _ _ Hnd Hin).
Qed.

(** The track-change callback: [lastLyrics] is cleared before the fan-out. *)
Lemma trackChanged_spec (songInfo : SongInfo) (w : World) :
  let w1 := step w (SongInfoCallback songInfo VideoSrcChanged) in
  lastLyrics (hub w1) = None
  /\ forall s,
       received w1 s
       = received w s
         ++ repeat (videoChangedDelta songInfo)
              (count_occ Nat.eq_dec (reached (throws w) (sockets (hub w))) s).
Proof.
  unfold_handlers. run_send. destruct c; simpl; split;
    try (match goal with Hh : hub _ = _ |- _ => now rewrite Hh end);
    match goal with Hr : forall s, received _ s = _ |- _ => exact Hr end.
Qed.

Lemma seeked_spec (t : float) (w : World) :
  let w1 := step w (Seeked t) in
  hub w1 = hub w
  /\ forall s,
       received w1 s
       = received w s
         ++ repeat (positionChangedDelta t)
              (count_occ Nat.eq_dec (reached (throws w) (sockets (hub w))) s).
Proof.
  unfold_handlers. run_send. simpl. split; assumption.
Qed.

End StepProperties.

(** ** Closed instances *)

Section RunExamples.
Context {engine : Engine}.

(** After a track change and a scrape by the route, a connection that opens
    is greeted with the scraped lyric, with any engine. *)
Lemma open_after_trackThenScrape :
  none_of is_pushed_lyric trackThenScrape = true
  /\ List.map message_type
       (received (run (trackThenScrape ++ [Open 1]) (initialWorld noneThrows)) 1)
     = ["PLAYER_INFO"; "LYRICS_CHANGED"]%string
  /\ nth_error (received (run (trackThenScrape ++ [Open 1]) (initialWorld noneThrows)) 1) 1
     = Some (LyricsMessage (scrapedLyric scrapedOnScreen (Some someSong))).
Proof. repeat split. Qed.

(** After a tick at 37 seconds and a seek to 42, connection 1 has been told
    the new position, and the snapshot still says 37: with any engine. *)
Lemma snapshot_after_tickOpenSeek :
  let w := run tickOpenSeek (initialWorld noneThrows) in
  nth_error (received w 1) 2 = Some (positionChangedDelta 42%float)
  /\ PlayerState.position (snapshot (hub w)) = 37%float
  /\ PrimFloat.eqb (PlayerState.position (snapshot (hub w))) 42%float = false.
Proof. repeat split. Qed.

End RunExamples.

(** C3 is not what the code does.  A track change is handled, then the
    current-lyric route is requested while a line is on screen, and no lyric
    is pushed; the connection opened next is sent [LYRICS_CHANGED], carrying
    the scraped line, and not [LYRICS_UNAVAILABLE].  And a connection whose
    [send] throws, opened right after a track change, receives nothing. *)
Lemma scrape_after_track_change_is_the_baseline :
  none_of is_pushed_lyric trackThenScrape = true
  /\ List.map message_type
       (received (@run exampleEngine (trackThenScrape ++ [Open 1])
                   (initialWorld noneThrows)) 1)
     = ["PLAYER_INFO"; "LYRICS_CHANGED"]%string
  /\ nth_error (received (@run exampleEngine (trackThenScrape ++ [Open 1])
                            (initialWorld noneThrows)) 1) 1
     = Some (LyricsMessage (scrapedLyric scrapedOnScreen (Some someSong)))
  /\ received (@run exampleEngine [SongInfoCallback someSong VideoSrcChanged; Open 1]
                 (initialWorld firstThrows)) 1
     = [].
Proof.
  destruct (@open_after_trackThenScrape exampleEngine) as (H1 & H2 & H3).
  repeat split; assumption.
Qed.

(** C6 is not what the code does.  The last position tick said 37 seconds;
    a seek to 42 is then handled.  Connection 1 receives
    [{ type: POSITION_CHANGED, position: 42 }], but the snapshot taken next
    reports position 37, not 42. *)
Lemma seek_leaves_snapshot_position :
  let w := @run exampleEngine tickOpenSeek (initialWorld noneThrows) in
  nth_error (received w 1) 2 = Some (positionChangedDelta 42%float)
  /\ PlayerState.position (snapshot (hub w)) = 37%float
  /\ PrimFloat.eqb (PlayerState.position (snapshot (hub w))) 42%float = false.
Proof. exact (@snapshot_after_tickOpenSeek exampleEngine). Qed.

(** The theorem of C2 at a renderer that fails, on a hub holding a pushed
    lyric: the answer carries that lyric. *)
Lemma currentLyric_refresh_on_every_request_witness :
  let w1 := @run exampleEngine [SyncedLyricsCurrent pushedPayload 5%float]
              (initialWorld noneThrows) in
  exists resp w',
    currentLyricHandler Rejected w1 = (Normal resp, w')
    /\ hub w' = hub w1
    /\ lyric resp = lastLyrics (hub w1).
Proof.
  intros w1.
  destruct (currentLyric_refresh_on_every_request Rejected w1)
    as (resp & w' & Hrun & _ & _ & _ & Hfail & _).
  exists resp, w'. split; [exact Hrun|].
  exact (Hfail (or_introl eq_refl)).
Defined.

(** * Further properties *)

(** ** Lists of connections *)

Lemma mem_In (ws : WS) (set : list WS) : mem ws set = true <-> In ws set.
Proof.
  unfold mem. rewrite existsb_exists. split.
  - intros (x & Hin & Heq). apply Nat.eqb_eq in Heq. now subst.
  - intros Hin. exists ws. split; [exact Hin|apply Nat.eqb_refl].
Qed.

Lemma mem_not_In (ws : WS) (set : list WS) : mem ws set = false <-> ~ In ws set.
Proof.
  rewrite <- mem_In. destruct (mem ws set); split; intros; easy.
Qed.

(** The connections reached are a prefix of the set. *)
Lemma reached_is_prefix (throws : WS -> bool) (set : list WS) :
  exists rest, set = reached throws set ++ rest.
Proof.
  induction set as [|s l (rest & IH)]; simpl.
  - now exists [].
  - destruct (throws s).
    + now exists (s :: l).
    + exists rest. simpl. now f_equal.
Qed.

Lemma reached_In (throws : WS -> bool) (set : list WS) (s : WS) :
  In s (reached throws set) -> In s set.
Proof.
  destruct (reached_is_prefix throws set) as (rest & H).
  intros Hin. rewrite H. apply in_or_app. now left.
Qed.

Lemma reached_NoDup (throws : WS -> bool) (set : list WS) :
  NoDup set -> NoDup (reached throws set).
Proof.
  destruct (reached_is_prefix throws set) as (rest & H).
  intros Hnd. rewrite H in Hnd. now apply NoDup_app_remove_r in Hnd.
Qed.

Lemma count_occ_mem (set : list WS) (s : WS) :
  NoDup set -> count_occ Nat.eq_dec set s = if mem s set then 1 else 0.
Proof.
  intros Hnd. destruct (mem s set) eqn:Hm.
  - apply count_occ_NoDup_in; [exact Hnd|now apply mem_In].
  - apply count_occ_notin. now apply mem_not_In.
Qed.

Section FurtherStepProperties.
Context {engine : Engine}.

Ltac unfold_handlers :=
  unfold step, handle, onSongInfo, onSyncedLyricsCurrent, onVolumeChanged,
    onRepeatChanged, onSeeked, onShuffleChanged, onClose,
    bind, writeHub, readHub, ret; simpl.

Ltac by_received :=
  simpl;
  match goal with Hr : forall s, received _ s = _ |- _ => apply Hr end.

(** What one event appends to the log of a connection, exactly. *)
Lemma step_received_exact (e : Event) (w : World) (s : WS) :
  received (step w e) s
  = received w s
    ++ match e with
       | Open ws =>
           if Nat.eqb s ws
           then if throws w ws then []
                else [PlayerInfoMessage (snapshot (hub w));
                      lyricBaseline (lastLyrics (hub w))]
           else []
       | _ =>
           match delta e (hub w) with
           | Some m =>
               repeat m (count_occ Nat.eq_dec (reached (throws w) (sockets (hub w))) s)
           | None => []
           end
       end.
Proof.
  destruct e as [songInfo event|payload now|v|mode|t|b|ws|ws|r].
  - destruct event; unfold_handlers; run_send; destruct c; by_received.
  - pose proof (onSyncedLyricsCurrent_spec payload now w) as Hs. simpl.
    destruct (normalizeLyric payload (lastSongInfo (hub w)) now) as [l|].
    + destruct Hs as (_ & _ & _ & Hrec). apply Hrec.
    + rewrite Hs. simpl. now rewrite app_nil_r.
  - unfold_handlers. run_send. by_received.
  - unfold_handlers. run_send. by_received.
  - unfold_handlers. run_send. by_received.
  - unfold_handlers. run_send. by_received.
  - apply onOpen_spec.
  - unfold_handlers. now rewrite app_nil_r.
  - unfold step, handle, bind.
    destruct (currentLyricHandler_spec r w) as (resp & w' & Hrun & _ & Hrec & _).
    rewrite Hrun. simpl. rewrite Hrec. now rewrite app_nil_r.
Qed.

(** Every handler but the route leaves the renderer alone. *)
Lemma step_rendererCalls (e : Event) (w : World) :
  rendererCalls (step w e)
  = if is_request e then S (rendererCalls w) else rendererCalls w.
Proof.
  destruct e as [songInfo event|payload now|v|mode|t|b|ws|ws|r]; simpl.
  - destruct event; unfold_handlers; run_send; destruct c; simpl; assumption.
  - pose proof (onSyncedLyricsCurrent_spec payload now w) as Hs.
    destruct (normalizeLyric payload (lastSongInfo (hub w)) now) as [l|].
    + now destruct Hs as (_ & _ & Hcalls & _).
    + now rewrite Hs.
  - unfold_handlers. run_send. simpl. assumption.
  - unfold_handlers. run_send. simpl. assumption.
  - unfold_handlers. run_send. simpl. assumption.
  - unfold_handlers. run_send. simpl. assumption.
  - unfold step, handle, onOpen, bind, writeHub, readHub, socket_send; simpl.
    destruct (throws w ws) eqn:Hthr; simpl; [reflexivity|].
    destruct (lastLyrics (hub w)); simpl; rewrite ?Hthr; reflexivity.
  - unfold_handlers. reflexivity.
  - unfold step, handle, bind.
    destruct (currentLyricHandler_spec r w) as (resp & w' & Hrun & Hcalls & _).
    rewrite Hrun. simpl. exact Hcalls.
Qed.

(** With a duplicate-free set a fan-out reaches a connection once or not
    at all. *)
Lemma step_delta_once (e : Event) (w : World) (s : WS) :
  NoDup (sockets (hub w)) ->
  is_open_event e = false ->
  received (step w e) s
  = received w s
    ++ match delta e (hub w) with
       | Some m => if mem s (reached (throws w) (sockets (hub w))) then [m] else []
       | None => []
       end.
Proof.
  intros Hnd Hopen. rewrite step_received_exact.
  assert (Hcount := count_occ_mem (reached (throws w) (sockets (hub w))) s
                      (reached_NoDup (throws w) _ Hnd)).
  destruct e; try discriminate; f_equal;
    destruct (delta _ (hub w)); try reflexivity;
    rewrite Hcount; now destruct (mem s _).
Qed.

(** X1.  With a duplicate-free set, an event other than an [Open] appends to
    each connection's log at most one message: its delta when the connection
    is among those the fan-out reaches, and nothing otherwise (in particular
    nothing for [Close] and for a request to the route). *)
Theorem event_delivers_its_delta_once (e : Event) (w : World) (s : WS) :
  NoDup (sockets (hub w)) ->
  is_open_event e = false ->
  received (step w e) s
  = received w s
    ++ match delta e (hub w) with
       | Some m => if mem s (reached (throws w) (sockets (hub w))) then [m] else []
       | None => []
       end.
Proof. exact (step_delta_once e w s). Qed.

(** A connection that is not in the set stays out of it and receives
    nothing, as long as it is not opened. *)
Lemma absent_connection_step (e : Event) (w : World) (ws : WS) :
  ~ In ws (sockets (hub w)) ->
  is_open_of ws e = false ->
  received (step w e) ws = received w ws
  /\ ~ In ws (sockets (hub (step w e))).
Proof.
  intros Hout Hopen. split.
  - rewrite step_received_exact.
    assert (Hzero : count_occ Nat.eq_dec (reached (throws w) (sockets (hub w))) ws = 0).
    { apply count_occ_notin. intros Hin. apply Hout. now apply reached_In in Hin. }
    destruct e; simpl in Hopen;
      try (destruct (delta _ (hub w)); rewrite ?Hzero; simpl; now rewrite app_nil_r).
    rewrite Nat.eqb_sym, Hopen. now rewrite app_nil_r.
  - rewrite step_sockets. destruct e; try exact Hout.
    + simpl in Hopen. apply Nat.eqb_neq in Hopen.
      unfold sockets_add. intros Hin. apply ListSet.set_add_iff in Hin.
      destruct Hin as [Heq|Hin]; [now apply Hopen|now apply Hout].
    + unfold sockets_delete. intros Hin. apply Hout.
      now apply ListSet.set_remove_1 in Hin.
Qed.

Lemma absent_connection_run (evs : list Event) (w : World) (ws : WS) :
  ~ In ws (sockets (hub w)) ->
  none_of (is_open_of ws) evs = true ->
  received (run evs w) ws = received w ws
  /\ ~ In ws (sockets (hub (run evs w))).
Proof.
  revert w. induction evs as [|e evs IH]; intros w Hout Hnone; simpl.
  - now split.
  - simpl in Hnone. apply andb_true_iff in Hnone. destruct Hnone as [He Hevs].
    apply negb_true_iff in He.
    destruct (absent_connection_step e w ws Hout He) as (Hrec & Hout').
    destruct (IH (step w e) Hout' Hevs) as (Hrec' & Hout'').
    split; [now rewrite Hrec', Hrec|exact Hout''].
Qed.

(** X2.  Once a connection is closed it is out of the set, and until it is
    opened again no event adds anything to what it has received. *)
Theorem closed_connection_gets_nothing (w : World) (ws : WS) (evs : list Event) :
  NoDup (sockets (hub w)) ->
  none_of (is_open_of ws) evs = true ->
  received (run evs (step w (Close ws))) ws = received w ws
  /\ ~ In ws (sockets (hub (run evs (step w (Close ws))))).
Proof.
  intros Hnd Hnone.
  assert (Hout : ~ In ws (sockets (hub (step w (Close ws))))).
  { rewrite step_sockets. unfold sockets_delete. intros Hin.
    now apply (ListSet.set_remove_2 Nat.eq_dec Hnd) in Hin. }
  destruct (absent_connection_run evs (step w (Close ws)) ws Hout Hnone) as (Hrec & Hout').
  split; [|exact Hout'].
  rewrite Hrec, step_received_exact. simpl. now rewrite app_nil_r.
Qed.

Lemma step_sockets_NoDup (e : Event) (w : World) :
  NoDup (sockets (hub w)) -> NoDup (sockets (hub (step w e))).
Proof. exact (run_sockets_NoDup [e] w). Qed.

Lemma step_live (e : Event) (w : World) (ws : WS) :
  NoDup (sockets (hub w)) ->
  mem ws (sockets (hub (step w e)))
  = live ws [e] (mem ws (sockets (hub w))).
Proof.
  intros Hnd. rewrite step_sockets.
  destruct e as [| | | | | |ws0|ws0|]; try reflexivity; simpl.
  - destruct (Nat.eqb_spec ws0 ws) as [->|Hne].
    + apply mem_In. apply ListSet.set_add_iff. now left.
    + destruct (mem ws (sockets (hub w))) eqn:Hm.
      * apply mem_In. apply ListSet.set_add_iff. right. now apply mem_In.
      * apply mem_not_In. intros Hin. apply ListSet.set_add_iff in Hin.
        destruct Hin as [Heq|Hin]; [now apply Hne|].
        apply mem_not_In in Hm. now apply Hm.
  - destruct (Nat.eqb_spec ws0 ws) as [->|Hne].
    + apply mem_not_In. intros Hin.
      now apply (ListSet.set_remove_2 Nat.eq_dec Hnd) in Hin.
    + destruct (mem ws (sockets (hub w))) eqn:Hm.
      * apply mem_In. apply ListSet.set_remove_iff; [exact Hnd|].
        split; [now apply mem_In|]. intros Heq. now apply Hne.
      * apply mem_not_In. intros Hin. apply ListSet.set_remove_1 in Hin.
        apply mem_not_In in Hm. now apply Hm.
Qed.

Lemma run_live (evs : list Event) (w : World) (ws : WS) :
  NoDup (sockets (hub w)) ->
  mem ws (sockets (hub (run evs w))) = live ws evs (mem ws (sockets (hub w))).
Proof.
  revert w. induction evs as [|e evs IH]; intros w Hnd; [reflexivity|].
  simpl. rewrite (IH (step w e) (step_sockets_NoDup e w Hnd)).
  now rewrite (step_live e w ws Hnd).
Qed.

(** X3.  In every hub reached from the initial one the set of connections
    has no duplicate, and a connection is in it exactly when the last of its
    [Open] and [Close] events so far is an [Open]. *)
Theorem live_set_matches_history (throws : WS -> bool) (evs : list Event) (ws : WS) :
  NoDup (sockets (hub (run evs (initialWorld throws))))
  /\ (In ws (sockets (hub (run evs (initialWorld throws))))
      <-> live ws evs false = true).
Proof.
  split; [apply reachable_sockets_NoDup|].
  rewrite <- mem_In, (run_live evs (initialWorld throws) ws); [reflexivity|].
  constructor.
Qed.

(** The volume, repeat and shuffle listeners assign before they fan out. *)
Lemma settings_assigned (w : World) :
  (forall v, volumeState (hub (step w (VolumeChangedIpc v))) = Some v)
  /\ (forall mode, repeat_ (hub (step w (RepeatChangedIpc mode))) = mode)
  /\ (forall b, shuffle (hub (step w (ShuffleChangedIpc b))) = b).
Proof.
  split; [|split]; intros x; unfold_handlers; run_send; simpl;
    match goal with Hh : hub _ = _ |- _ => now rewrite Hh end.
Qed.

(** X4.  A volume, repeat or shuffle event is stored before its fan-out:
    whether or not a [send] throws, the snapshot reports the new value, and
    keeps reporting it until the next event of the same kind. *)
Theorem settings_stored_before_fanout (w : World) (evs : list Event) :
  (forall v, none_of is_volume_event evs = true ->
     let st := snapshot (hub (run evs (step w (VolumeChangedIpc v)))) in
     PlayerState.volume st = state v /\ PlayerState.muted st = isMuted v)
  /\ (forall mode, none_of is_repeat_event evs = true ->
        PlayerState.repeat_ (snapshot (hub (run evs (step w (RepeatChangedIpc mode)))))
        = mode)
  /\ (forall b, none_of is_shuffle_event evs = true ->
        PlayerState.shuffle (snapshot (hub (run evs (step w (ShuffleChangedIpc b)))))
        = b).
Proof.
  destruct (settings_assigned w) as (Hv & Hr & Hs).
  split; [|split].
  - intros v Hnone st. unfold st, snapshot, createPlayerState; simpl.
    rewrite (proj1 (run_frame evs _) Hnone), Hv. now split.
  - intros mode Hnone. unfold snapshot, createPlayerState; simpl.
    now rewrite (proj1 (proj2 (run_frame evs _)) Hnone), Hr.
  - intros b Hnone. unfold snapshot, createPlayerState; simpl.
    now rewrite (proj1 (proj2 (proj2 (run_frame evs _))) Hnone), Hs.
Qed.

(** The song-info callback assigns [lastSongInfo] last. *)
Lemma songinfo_assigned_last (w : World) (songInfo : SongInfo)
    (event : SongInfoEvent) :
  let w1 := step w (SongInfoCallback songInfo event) in
  (existsb (throws w) (sockets (hub w)) = false ->
   lastSongInfo (hub w1) = Some songInfo
   /\ PlayerState.song (snapshot (hub w1)) = Some songInfo
   /\ PlayerState.position (snapshot (hub w1))
      = match elapsedSeconds songInfo with Some t => t | None => 0%float end)
  /\ (existsb (throws w) (sockets (hub w)) = true ->
      lastSongInfo (hub w1) = lastSongInfo (hub w)
      /\ (event = VideoSrcChanged -> lastLyrics (hub w1) = None)).
Proof.
  intros w1. unfold w1. split; intros Hthr.
  - assert (Hsong : lastSongInfo (hub (step w (SongInfoCallback songInfo event)))
                    = Some songInfo).
    { destruct event; unfold_handlers; run_send;
        match goal with Hc : _ = (if _ then _ else _) |- _ =>
          rewrite Hthr in Hc; subst end; reflexivity. }
    unfold snapshot, createPlayerState; simpl. rewrite Hsong. repeat split.
  - destruct event; unfold_handlers; run_send;
      match goal with Hc : _ = (if _ then _ else _) |- _ =>
        rewrite Hthr in Hc; subst end; simpl;
      match goal with Hh : hub _ = _ |- _ => rewrite Hh end; simpl;
      (split; [reflexivity|]); intros Hev; try discriminate; reflexivity.
Qed.

(** X5.  The song-info callback stores the song after its fan-out.  When no
    [send] throws, the song is stored and the snapshot reports it, with its
    [elapsedSeconds] as position.  When a [send] throws, the stored song is
    left as it was, although a track change has already cleared the lyric. *)
Theorem songinfo_stored_after_fanout (w : World) (songInfo : SongInfo)
    (event : SongInfoEvent) :
  let w1 := step w (SongInfoCallback songInfo event) in
  (existsb (throws w) (sockets (hub w)) = false ->
   lastSongInfo (hub w1) = Some songInfo
   /\ PlayerState.song (snapshot (hub w1)) = Some songInfo
   /\ PlayerState.position (snapshot (hub w1))
      = match elapsedSeconds songInfo with Some t => t | None => 0%float end)
  /\ (existsb (throws w) (sockets (hub w)) = true ->
      lastSongInfo (hub w1) = lastSongInfo (hub w)
      /\ (event = VideoSrcChanged -> lastLyrics (hub w1) = None)).
Proof. exact (songinfo_assigned_last w songInfo event). Qed.

(** X6.  After a play-or-pause callback whose fan-out completes, the
    [isPlaying] of the delta and the [isPlaying] of the snapshot agree exactly
    when the song carries an [isPaused] flag: without the flag the delta says
    [false] and the snapshot says [true]. *)
Theorem playPause_delta_and_snapshot (w : World) (songInfo : SongInfo) (s : WS) :
  NoDup (sockets (hub w)) ->
  existsb (throws w) (sockets (hub w)) = false ->
  In s (sockets (hub w)) ->
  let w1 := step w (SongInfoCallback songInfo PlayOrPaused) in
  exists d,
    received w1 s = received w s ++ [StateMessage PlayerStateChanged d]
    /\ Partial.position d = elapsedSeconds songInfo
    /\ (Partial.isPlaying d = Some (PlayerState.isPlaying (snapshot (hub w1)))
        <-> isPaused songInfo <> None)
    /\ (isPaused songInfo = None ->
        Partial.isPlaying d = Some false
        /\ PlayerState.isPlaying (snapshot (hub w1)) = true).
Proof.
  intros Hnd Hthr Hin w1.
  destruct (songinfo_assigned_last w songInfo PlayOrPaused) as (Hok & _).
  destruct (Hok Hthr) as (Hsong & _). fold w1 in Hsong.
  eexists. split.
  - unfold w1.
    rewrite (step_delta_once (SongInfoCallback songInfo PlayOrPaused) w s Hnd eq_refl).
    simpl.
    rewrite (reached_all _ _ Hthr), (proj2 (mem_In s _) Hin). reflexivity.
  - simpl. unfold snapshot, createPlayerState; simpl. rewrite Hsong.
    split; [reflexivity|].
    destruct (isPaused songInfo) as [b|]; simpl; split.
    + split; [discriminate|reflexivity].
    + discriminate.
    + split; [discriminate|]. intros H. now contradiction H.
    + now split.
Qed.

(** X7.  A pushed payload that is not normalisable changes nothing at all.
    A normalisable one is stored before its fan-out, so whether or not a
    [send] throws: the hub holds the normalised payload, whose song is derived
    from the song stored at that moment; a request to the route whose refresh
    fails or finds nothing answers with that lyric; and a connection that
    opens next is greeted with it, or with nothing if its own [send]
    throws. *)
Theorem pushed_lyric_round_trip (w : World) (payload : value) (now : float) (ws : WS) :
  let w1 := step w (SyncedLyricsCurrent payload now) in
  (normalizable payload = false -> w1 = w)
  /\ (normalizable payload = true ->
      exists l,
        normalizeLyric payload (lastSongInfo (hub w)) now = Some l
        /\ lastLyrics (hub w1) = Some l
        /\ Lyric.song l = songRef (lastSongInfo (hub w))
        /\ (forall r, r = Rejected \/ r = Resolved None ->
              fst (currentLyricHandler r w1) = Normal (mkResponse 200 true (Some l)))
        /\ received (step w1 (Open ws)) ws
           = received w1 ws
             ++ (if throws w ws then []
                 else [PlayerInfoMessage (snapshot (hub w1)); LyricsMessage l])).
Proof.
  intros w1.
  pose proof (onSyncedLyricsCurrent_spec payload now w) as Hs. fold w1 in Hs.
  split.
  - intros Hn.
    apply (normalizeLyric_None_iff payload (lastSongInfo (hub w)) now) in Hn.
    now rewrite Hn in Hs.
  - intros Hn.
    apply (normalizeLyric_Some_iff payload (lastSongInfo (hub w)) now) in Hn.
    destruct Hn as (l & Hl). rewrite Hl in Hs. destruct Hs as (Hh & Ht & _).
    exists l. split; [exact Hl|].
    assert (Hstored : lastLyrics (hub w1) = Some l) by now rewrite Hh.
    split; [exact Hstored|]. split.
    { pose proof (normalizeLyric_inv payload _ now l Hl) as Hinv. cbv zeta in Hinv.
      destruct Hinv as (idx & tms & dur & txt & ts & _ & _ & _ & _ & _ & ->).
      reflexivity. }
    split.
    + intros r Hr.
      destruct (currentLyricHandler_spec r w1)
        as (resp & w' & Hrun & _ & _ & _ & Hst & Hav & Hly & Hhub).
      rewrite Hrun. simpl. f_equal.
      assert (Hsame : hub w' = hub w1) by (destruct Hr as [-> | ->]; exact Hhub).
      rewrite Hsame, Hstored in Hav, Hly.
      destruct resp as [st av ly]; simpl in *. now subst.
    + rewrite step_received_exact, Nat.eqb_refl, Ht, Hstored. reflexivity.
Qed.

(** X8.  A request to the route writes [lastLyrics] and nothing else: no
    connection is sent anything, even when a scraped line replaces the stored
    lyric, and the set of connections and the other variables stay as they
    are. *)
Theorem route_never_broadcasts (r : RendererResult) (w : World) :
  let w1 := step w (GetCurrentLyric r) in
  (forall s, received w1 s = received w s)
  /\ sockets (hub w1) = sockets (hub w)
  /\ volumeState (hub w1) = volumeState (hub w)
  /\ repeat_ (hub w1) = repeat_ (hub w)
  /\ shuffle (hub w1) = shuffle (hub w)
  /\ lastSongInfo (hub w1) = lastSongInfo (hub w).
Proof.
  intros w1. unfold w1.
  destruct (step_frame (GetCurrentLyric r) w) as (_ & Hv & Hr & Hs & Hi & _).
  split.
  - intros s. rewrite step_received_exact. simpl. now rewrite app_nil_r.
  - rewrite step_sockets. repeat split.
    + now apply Hv.
    + now apply Hr.
    + now apply Hs.
    + now apply Hi.
Qed.

(** X9.  Over any run the renderer is asked to run the lyric script once
    per request to the route, and by no other event. *)
Theorem renderer_called_once_per_request (evs : list Event) (w : World) :
  rendererCalls (run evs w)
  = rendererCalls w + List.length (filter is_request evs).
Proof.
  revert w. induction evs as [|e evs IH]; intros w; simpl; [lia|].
  rewrite IH, step_rendererCalls. destruct (is_request e); simpl; lia.
Qed.

(** X10.  Seeks are not coalesced: [n] seeks to the same position append
    [n] position deltas to the log of every live connection, and leave the hub
    as it was. *)
Theorem seeks_are_not_coalesced (w : World) (t : float) (n : nat) (s : WS) :
  NoDup (sockets (hub w)) ->
  existsb (throws w) (sockets (hub w)) = false ->
  In s (sockets (hub w)) ->
  received (run (repeat (Seeked t) n) w) s
  = received w s ++ repeat (positionChangedDelta t) n
  /\ hub (run (repeat (Seeked t) n) w) = hub w.
Proof.
  revert w. induction n as [|n IH]; intros w Hnd Hthr Hin; simpl.
  - split; [now rewrite app_nil_r|reflexivity].
  - destruct (seeked_spec t w) as (Hhub & Hrec).
    assert (Hthr1 : throws (step w (Seeked t)) = throws w)
      by apply step_frame.
    destruct (IH (step w (Seeked t))) as (Hrec' & Hhub').
    + now rewrite Hhub.
    + now rewrite Hthr1, Hhub.
    + now rewrite Hhub.
    + split; [|now rewrite Hhub', Hhub].
      rewrite Hrec', Hrec, (delivered_once _ w s Hnd Hthr Hin).
      now rewrite <- app_assoc.
Qed.

End FurtherStepProperties.

(** ** More on the normaliser *)

Lemma coalesce_null_defined (v : value) : v ?? VNull <> VUndefined.
Proof. destruct v; discriminate. Qed.

Lemma nan_guard (x : float) : isNaN (if isNaN x then 0%float else x) = false.
Proof. destruct (isNaN x) eqn:Hx; [reflexivity|exact Hx]. Qed.

Section FurtherNormalizerProperties.
Context {engine : Engine}.

(** X11.  Normalisation returns a lyric exactly on the normalisable
    payloads, and every lyric it returns has a [timeInMs] and a [duration]
    that are not [NaN], an [index] that is [null] or a number [>= 0], a
    [provider] and a [romanized] that are not [undefined], and a [song]
    exactly when a current song was given. *)
Theorem normalizeLyric_output_ranges (payload : value) (song : option SongInfo)
    (now : float) :
  ((exists l, normalizeLyric payload song now = Some l)
   <-> normalizable payload = true)
  /\ forall l,
       normalizeLyric payload song now = Some l ->
       isNaN (Lyric.timeInMs l) = false
       /\ isNaN (Lyric.duration l) = false
       /\ (forall i, Lyric.index l = Some i -> ge0 i = true)
       /\ Lyric.provider l <> VUndefined
       /\ Lyric.romanized l <> VUndefined
       /\ (Lyric.song l = None <-> song = None).
Proof.
  split; [apply normalizeLyric_Some_iff|].
  intros l Hl.
  pose proof (normalizeLyric_inv payload song now l Hl) as Hinv. cbv zeta in Hinv.
  destruct Hinv as (idx & tms & dur & txt & ts & _ & _ & _ & _ & _ & ->).
  simpl.
  split; [apply nan_guard|]. split; [apply nan_guard|]. split.
  - intros i. destruct (ge0 idx) eqn:Hge; [|discriminate].
    intros Hi. injection Hi as <-. exact Hge.
  - split; [apply coalesce_null_defined|]. split; [apply coalesce_null_defined|].
    destruct song; simpl; split; intros H; try discriminate; reflexivity.
Qed.

(** X12.  In every lyric that normalisation returns, the text is the string
    form of the raw line's [text] when that is there and not nullish, else of
    its [lyrics], else the empty string; and [timeInMs] is the number form of
    the raw line's [timeInMs] when that is there and not nullish, else of its
    [time], with [0] in place of [NaN] and when neither is there. *)
Theorem normalizeLyric_first_present_wins (payload : value) (song : option SongInfo)
    (now : float) :
  ((exists l, normalizeLyric payload song now = Some l)
   <-> normalizable payload = true)
  /\ forall l,
       normalizeLyric payload song now = Some l ->
       match firstPresent [rawLineField payload "text"; rawLineField payload "lyrics"] with
       | Some v => ToString v = Some (Lyric.text l)
       | None => Lyric.text l = []
       end
       /\ match firstPresent [rawLineField payload "timeInMs"; rawLineField payload "time"] with
          | Some v =>
              exists n, ToNumber v = Some n
                        /\ Lyric.timeInMs l = if isNaN n then 0%float else n
          | None => Lyric.timeInMs l = 0%float
          end.
Proof.
  split; [apply normalizeLyric_Some_iff|].
  intros l Hl.
  pose proof (normalizeLyric_inv payload song now l Hl) as Hinv. cbv zeta in Hinv.
  destruct Hinv as (idx & tms & dur & txt & ts & _ & Htms & _ & Htxt & _ & ->).
  simpl. rewrite !(get_line_field payload) in Htms, Htxt. split.
  - revert Htxt. unfold firstPresent, coalesce.
    destruct (rawLineField payload "text") as [t|];
      [destruct (nullish t) eqn:Ht|];
      (destruct (rawLineField payload "lyrics") as [ly|];
       [destruct (nullish ly) eqn:Hly|]);
      simpl; rewrite ?Ht, ?Hly; simpl; rewrite ?Ht, ?Hly; simpl;
      try (intros H; exact H); now intros [= <-].
  - revert Htms. unfold firstPresent, coalesce, number_coalesce.
    destruct (rawLineField payload "timeInMs") as [t|];
      [destruct (nullish t) eqn:Ht|];
      (destruct (rawLineField payload "time") as [ti|];
       [destruct (nullish ti) eqn:Hti|]);
      simpl; rewrite ?Ht, ?Hti; simpl;
      try (intros H; now exists tms); now intros [= <-].
Qed.

End FurtherNormalizerProperties.

(** ** Artists *)

(** X13.  A non-empty artist string gives one artist more than it has
    separators [&] and [,], empty ones included; no artist contains a
    separator, none begins or ends with white space, and trimming one again
    changes nothing. *)
Theorem splitArtists_segments (artist : jsstring) :
  artist <> [] ->
  List.length (splitArtists artist)
  = S (List.length (filter ampersand_or_comma artist))
  /\ Forall (fun a =>
               forallb (fun c => negb (ampersand_or_comma c)) a = true
               /\ trimmed a
               /\ trim a = a)
            (splitArtists artist).
Proof. exact (splitArtists_spec artist). Qed.

(** The theorem above at ["A,, B"]: three artists, the middle one empty. *)
Lemma splitArtists_segments_witness :
  List.length (splitArtists (lit "A,, B")) = 3
  /\ splitArtists (lit "A,, B") = [lit "A"; []; lit "B"].
Proof.
  split; [|reflexivity].
  refine (proj1 (splitArtists_segments (lit "A,, B") _)). discriminate.
Defined.

(** ** The synced-lyrics backend *)

Module SyncedLyricsProperties.
Import SyncedLyrics.

(** No operation removes the listener. *)
Lemma apply_listening (b : Backend) (o : Op) :
  listening b = true -> listening (apply b o) = true.
Proof.
  unfold listening. intros H. destruct o; [reflexivity|exact H|].
  unfold apply, emitCurrent. now rewrite H.
Qed.

(** While it listens, the backend holds the last payload emitted. *)
Lemma run_listening (ops : list Op) (b : Backend) :
  listening b = true ->
  lastCurrent (run ops b) = lastEmitted ops (lastCurrent b).
Proof.
  revert b. induction ops as [|o ops IH]; intros b H; [reflexivity|].
  change (run (o :: ops) b) with (run ops (apply b o)).
  rewrite (IH (apply b o) (apply_listening b o H)).
  destruct o; [reflexivity|reflexivity|].
  unfold apply, emitCurrent. unfold listening in H. now rewrite H.
Qed.

(** Before the first [start] nothing is recorded. *)
Lemma run_not_listening (ops : list Op) (b : Backend) :
  listening b = false ->
  lastCurrent (run ops b)
  = if started ops then lastEmitted (sinceStart ops) (lastCurrent b)
    else lastCurrent b.
Proof.
  revert b. induction ops as [|o ops IH]; intros b H; [reflexivity|].
  change (run (o :: ops) b) with (run ops (apply b o)).
  destruct o.
  - exact (run_listening ops (start b) eq_refl).
  - exact (IH (stop b) H).
  - assert (Hsame : apply b (Emit payload) = b).
    { unfold apply, emitCurrent. unfold listening in H. now rewrite H. }
    rewrite Hsame. exact (IH b H).
Qed.

Lemma filter_removes (c : Channel) (l : list Channel) :
  existsb (Channel_eqb c) (filter (fun x => negb (Channel_eqb x c)) l) = false.
Proof.
  induction l as [|x l IH]; simpl; [reflexivity|].
  destruct (Channel_eqb x c) eqn:Hx; simpl; [exact IH|].
  rewrite IH. destruct c, x; simpl in *; congruence.
Qed.

Lemma apply_answering (b : Backend) (o : Op) :
  answering (apply b o)
  = match o with
    | Start => true
    | Stop => false
    | Emit _ => answering b
    end.
Proof.
  unfold answering. destruct o.
  - reflexivity.
  - apply filter_removes.
  - unfold apply, emitCurrent.
    now destruct (existsb (Channel_eqb Current) (listened b)).
Qed.

Lemma run_answering (ops : list Op) (b : Backend) :
  answering (run ops b)
  = fold_left (fun r o => match o with Start => true | Stop => false | Emit _ => r end)
              ops (answering b).
Proof.
  revert b. induction ops as [|o ops IH]; intros b; simpl; [reflexivity|].
  rewrite IH, apply_answering. reflexivity.
Qed.

Lemma lastEmitted_not_started (ops : list Op) :
  started ops = false -> sinceStart ops = [].
Proof.
  induction ops as [|o ops IH]; simpl; [reflexivity|].
  destruct o; simpl; [discriminate|exact IH|exact IH].
Qed.

Lemma recorded (ops : list Op) :
  lastCurrent (run ops loaded) = lastEmitted (sinceStart ops) None.
Proof.
  rewrite (run_not_listening ops loaded eq_refl). simpl.
  destruct (started ops) eqn:Hs; [reflexivity|].
  now rewrite (lastEmitted_not_started ops Hs).
Qed.

(** X14.  From the module as loaded and over any sequence of [start],
    [stop] and ['synced-lyrics:current'] messages, [lastCurrent] is the payload
    of the last message since the first [start], or [null] when there is none;
    ['synced-lyrics:get-current'] is answered, with that value, exactly when
    the last of the [start]s and [stop]s is a [start]. *)
Theorem get_current_answers_last_payload (ops : list Op) :
  lastCurrent (run ops loaded) = lastEmitted (sinceStart ops) None
  /\ invokeGetCurrent (run ops loaded)
     = if running ops then Some (lastEmitted (sinceStart ops) None) else None.
Proof.
  split; [apply recorded|].
  unfold invokeGetCurrent. fold (answering (run ops loaded)).
  rewrite run_answering. change (answering loaded) with false.
  fold (running ops).
  destruct (running ops); [|reflexivity].
  now rewrite recorded.
Qed.

(** X15.  [stop] removes the two invoke handlers and leaves the listener:
    once the backend has been started, a payload that arrives while it is
    stopped is still recorded, and is the answer after the next [start]. *)
Theorem stop_keeps_recording (ops : list Op) (payload : value) :
  started ops = true ->
  invokeGetCurrent (run (ops ++ [Stop]) loaded) = None
  /\ lastCurrent (run (ops ++ [Stop; Emit payload]) loaded) = Some payload
  /\ invokeGetCurrent (run (ops ++ [Stop; Emit payload; Start]) loaded)
     = Some (Some payload).
Proof.
  intros Hs.
  assert (Hl : listening (run ops loaded) = true).
  { clear payload. revert Hs. generalize loaded.
    induction ops as [|o ops IH]; intros b; simpl; [discriminate|].
    destruct o; simpl; intros H.
    - clear IH H. assert (Hb : listening (start b) = true) by reflexivity.
      revert Hb. generalize (start b). induction ops as [|o ops IH]; intros c Hc;
        [exact Hc|]. simpl. apply IH. now apply apply_listening.
    - now apply IH.
    - now apply IH. }
  assert (Hstop : listening (stop (run ops loaded)) = true)
    by exact (apply_listening _ Stop Hl).
  assert (Hemit : emitCurrent payload (stop (run ops loaded))
                  = mkBackend (Some payload) (handled (stop (run ops loaded)))
                              (listened (stop (run ops loaded)))).
  { unfold emitCurrent. unfold listening in Hstop. now rewrite Hstop. }
  unfold run in *. rewrite !fold_left_app.
  change (fold_left apply [Stop] ?b) with (stop b).
  change (fold_left apply [Stop; Emit payload] ?b) with (emitCurrent payload (stop b)).
  change (fold_left apply [Stop; Emit payload; Start] ?b)
    with (start (emitCurrent payload (stop b))).
  split; [|split].
  - unfold invokeGetCurrent.
    change (existsb (Channel_eqb GetCurrent) (handled (stop ?b)))
      with (answering (apply b Stop)).
    now rewrite apply_answering.
  - now rewrite Hemit.
  - now rewrite Hemit.
Qed.

(** The theorem above after one [start] and one message. *)
Lemma stop_keeps_recording_witness :
  invokeGetCurrent
    (run ([Start; Emit pushedPayload] ++ [Stop; Emit staticLine; Start]) loaded)
  = Some (Some staticLine).
Proof.
  refine (proj2 (proj2 (stop_keeps_recording [Start; Emit pushedPayload] staticLine _))).
  reflexivity.
Defined.

End SyncedLyricsProperties.

(** ** Closed instances of the further properties *)

Lemma twoSockets_NoDup (throws : WS -> bool) : NoDup (sockets (hub (twoSockets throws))).
Proof. simpl. repeat constructor; simpl; intuition discriminate. Defined.

(** X1 at a volume event with connections 1 and 2 live, the first of which cannot be
    written to: connection 2 is not reached. *)
Lemma event_delivers_its_delta_once_witness :
  received (@step exampleEngine (twoSockets firstThrows) (VolumeChangedIpc volume42Muted)) 2
  = []
  /\ received (@step exampleEngine (twoSockets noneThrows) (VolumeChangedIpc volume42Muted)) 2
     = [StateMessage VolumeChanged
          {| Partial.song := None; Partial.isPlaying := None;
             Partial.muted := Some true; Partial.position := None;
             Partial.volume := Some 42%float; Partial.repeat_ := None;
             Partial.shuffle := None |}].
Proof.
  split.
  - exact (@event_delivers_its_delta_once exampleEngine (VolumeChangedIpc volume42Muted)
             (twoSockets firstThrows) 2 (twoSockets_NoDup firstThrows) eq_refl).
  - exact (@event_delivers_its_delta_once exampleEngine (VolumeChangedIpc volume42Muted)
             (twoSockets noneThrows) 2 (twoSockets_NoDup noneThrows) eq_refl).
Defined.

(** X2 at connection 2 closing before a volume event and a seek. *)
Lemma closed_connection_gets_nothing_witness :
  received (@run exampleEngine [VolumeChangedIpc volume42Muted; Seeked 5%float]
              (@step exampleEngine (twoSockets noneThrows) (Close 2))) 2
  = []
  /\ ~ In 2 (sockets (hub (@run exampleEngine
                             [VolumeChangedIpc volume42Muted; Seeked 5%float]
                             (@step exampleEngine (twoSockets noneThrows) (Close 2))))).
Proof.
  exact (@closed_connection_gets_nothing exampleEngine (twoSockets noneThrows) 2
           [VolumeChangedIpc volume42Muted; Seeked 5%float]
           (twoSockets_NoDup noneThrows) eq_refl).
Defined.

(** X5 at a track change while connection 1 cannot be written to: the
    lyric is cleared and the song is not stored. *)
Lemma songinfo_stored_after_fanout_witness :
  let w1 := @step exampleEngine (twoSockets firstThrows)
              (SongInfoCallback someSong VideoSrcChanged) in
  lastSongInfo (hub w1) = None /\ lastLyrics (hub w1) = None.
Proof.
  intros w1.
  destruct (@songinfo_stored_after_fanout exampleEngine (twoSockets firstThrows)
              someSong VideoSrcChanged) as (_ & Hthrow).
  destruct (Hthrow eq_refl) as (Hsong & Hlyrics).
  split; [exact Hsong|exact (Hlyrics eq_refl)].
Defined.

(** A song without the [isPaused] flag. *)
Lemma playPause_delta_and_snapshot_witness :
  let unflagged := mkSongInfo (lit "Title") (lit "A") (lit "vid") None None in
  let w1 := @step exampleEngine (twoSockets noneThrows)
              (SongInfoCallback unflagged PlayOrPaused) in
  exists d,
    received w1 1 = [StateMessage PlayerStateChanged d]
    /\ Partial.isPlaying d = Some false
    /\ PlayerState.isPlaying (snapshot (hub w1)) = true.
Proof.
  intros unflagged w1.
  destruct (@playPause_delta_and_snapshot exampleEngine (twoSockets noneThrows)
              unflagged 1 (twoSockets_NoDup noneThrows) eq_refl (or_introl eq_refl))
    as (d & Hrec & _ & _ & Hnone).
  exists d. split; [exact Hrec|]. exact (Hnone eq_refl).
Defined.

(** X7 at the pushed payload, with connection 1 unwritable and connection
    3 opening next. *)
Lemma pushed_lyric_round_trip_witness :
  let w1 := @step exampleEngine (twoSockets firstThrows)
              (SyncedLyricsCurrent pushedPayload 5%float) in
  exists l,
    lastLyrics (hub w1) = Some l
    /\ fst (currentLyricHandler Rejected w1) = Normal (mkResponse 200 true (Some l))
    /\ received (@step exampleEngine w1 (Open 3)) 3
       = received w1 3 ++ [PlayerInfoMessage (snapshot (hub w1)); LyricsMessage l].
Proof.
  intros w1.
  destruct (@pushed_lyric_round_trip exampleEngine (twoSockets firstThrows)
              pushedPayload 5%float 3)
    as (_ & Hok).
  destruct (Hok eq_refl) as (l & _ & Hstored & _ & Hroute & Hopen).
  exists l. split; [exact Hstored|].
  split; [exact (Hroute Rejected (or_introl eq_refl))|exact Hopen].
Defined.

(** X10 at three seeks to 10 seconds. *)
Lemma seeks_are_not_coalesced_witness :
  received (@run exampleEngine (repeat (Seeked 10%float) 3) (twoSockets noneThrows)) 2
  = received (twoSockets noneThrows) 2 ++ repeat (positionChangedDelta 10%float) 3.
Proof.
  exact (proj1 (@seeks_are_not_coalesced exampleEngine (twoSockets noneThrows)
                  10%float 3 2 (twoSockets_NoDup noneThrows) eq_refl
                  (or_intror (or_introl eq_refl)))).
Defined.

(** * Connections that open, seeks, and the snapshot *)


(** The snapshot is the full player state of the hub. *)
Lemma snapshot_full (h : Hub) : snapshot h = fullPlayerState h.
Proof.
  unfold snapshot, createPlayerState, fullPlayerState, paused.
  destruct (lastSongInfo h) as [[ti ar vi pa [el|]]|]; reflexivity.
Qed.

Section ConnectionProperties.
Context {engine : Engine}.



(** C3 (as amended).  Handling a track change clears the stored lyric; when
    no [send] throws, every live connection receives the delta
    [{ type: VIDEO_CHANGED, song, position: 0 }]; and a connection opened
    after it, before any pushed payload that normalises to a lyric and before
    any request to the current-lyric route that scraped a line, is sent
    [PLAYER_INFO] and then [LYRICS_UNAVAILABLE] when its [send] does not
    throw, and is sent nothing when it does. *)
Theorem track_change_clears_lyrics (w : World) (songInfo : SongInfo)
    (evs : list Event) (ws : WS) :
  let w1 := step w (SongInfoCallback songInfo VideoSrcChanged) in
  lastLyrics (hub w1) = None
  /\ (NoDup (sockets (hub w)) ->
      existsb (throws w) (sockets (hub w)) = false ->
      forall s, In s (sockets (hub w)) ->
        received w1 s = received w s ++ [videoChangedDelta songInfo])
  /\ (none_of writes_lyrics evs = true ->
      received (run (evs ++ [Open ws]) w1) ws
      = received (run evs w1) ws
        ++ (if throws w ws then []
            else [PlayerInfoMessage (fullPlayerState (hub (run evs w1)));
                  LyricsUnavailable])).
Proof.
  intros w1.
  destruct (trackChanged_spec songInfo w) as (Hclear & Hrec). fold w1 in Hclear, Hrec.
  split; [exact Hclear|]. split.
  - intros Hnd Hnone s Hin. rewrite Hrec. f_equal. now apply delivered_once.
  - intros Hevs.
    rewrite run_app. simpl.
    destruct (onOpen_spec (run evs w1) ws) as (_ & _ & Hopen).
    rewrite Hopen, Nat.eqb_refl.
    assert (Hthr' : throws (run evs w1) ws = throws w ws).
    { rewrite run_throws. unfold w1.
      now rewrite (proj1 (step_frame (SongInfoCallback songInfo VideoSrcChanged) w)). }
    rewrite Hthr'.
    destruct (run_frame evs w1) as (_ & _ & _ & _ & Hly).
    now rewrite (Hly Hevs Hclear), snapshot_full.
Qed.


(** C6 (as amended).  A seek to [t] changes nothing in the hub: the
    snapshot built afterwards is the one built before, and reports as position
    the [elapsedSeconds] of the stored song, or [0] when no song is stored or
    it has none; after a song-info callback whose fan-out completed, that is
    the callback's [elapsedSeconds].  When no [send] throws, every live
    connection receives [{ type: POSITION_CHANGED, position: t }]. *)
Theorem seek_is_broadcast_not_stored (w : World) (t : float) (songInfo : SongInfo)
    (event : SongInfoEvent) :
  let w1 := step w (Seeked t) in
  hub w1 = hub w
  /\ snapshot (hub w1) = snapshot (hub w)
  /\ PlayerState.position (snapshot (hub w1))
     = match lastSongInfo (hub w) with
       | Some s => match elapsedSeconds s with Some x => x | None => 0%float end
       | None => 0%float
       end
  /\ (existsb (throws w) (sockets (hub w)) = false ->
      PlayerState.position
        (snapshot (hub (run [SongInfoCallback songInfo event; Seeked t] w)))
      = match elapsedSeconds songInfo with Some x => x | None => 0%float end)
  /\ (NoDup (sockets (hub w)) ->
      existsb (throws w) (sockets (hub w)) = false ->
      forall s, In s (sockets (hub w)) ->
        received w1 s = received w s ++ [positionChangedDelta t]).
Proof.
  intros w1.
  destruct (seeked_spec t w) as (Hhub & Hrec). fold w1 in Hhub, Hrec.
  split; [exact Hhub|]. split; [now rewrite Hhub|]. split; [now rewrite Hhub|].
  split.
  - intros Hthr. simpl.
    destruct (seeked_spec t (step w (SongInfoCallback songInfo event))) as (Hhub' & _).
    rewrite Hhub'.
    destruct (songinfo_assigned_last w songInfo event) as (Hok & _).
    now destruct (Hok Hthr) as (_ & _ & Hpos).
  - intros Hnd Hnone s Hin. rewrite Hrec. f_equal. now apply delivered_once.
Qed.

(** C8.  After any run from the initial hub, the snapshot carries the
    stored song and reports [isPlaying] as "a song is stored and it is not
    paused"; right after a song-info callback whose fan-out completes, that
    song is the callback's.  The snapshot reports no song, [isPlaying = false]
    and [position = 0] when no song-info callback has arrived, [muted = false]
    and [volume = 100] when no volume event has arrived, [repeat = NONE] when
    no repeat event has arrived and [shuffle = false] when no shuffle event has
    arrived. *)
Theorem snapshot_derived_and_defaults (throws : WS -> bool) (evs : list Event)
    (songInfo : SongInfo) (event : SongInfoEvent) :
  let h := hub (run evs (initialWorld throws)) in
  let st := snapshot h in
  PlayerState.song st = lastSongInfo h
  /\ PlayerState.isPlaying st
     = match lastSongInfo h with
       | Some s => negb (paused s)
       | None => false
       end
  /\ (existsb throws (sockets h) = false ->
      let st' := snapshot (hub (run (evs ++ [SongInfoCallback songInfo event])
                                 (initialWorld throws))) in
      PlayerState.song st' = Some songInfo
      /\ PlayerState.isPlaying st' = negb (paused songInfo))
  /\ (none_of is_songinfo_event evs = true ->
      PlayerState.song st = None
      /\ PlayerState.isPlaying st = false
      /\ PlayerState.position st = 0%float)
  /\ (none_of is_volume_event evs = true ->
      PlayerState.muted st = false /\ PlayerState.volume st = 100%float)
  /\ (none_of is_repeat_event evs = true -> PlayerState.repeat_ st = NONE)
  /\ (none_of is_shuffle_event evs = true -> PlayerState.shuffle st = false).
Proof.
  intros h st.
  destruct (run_frame evs (initialWorld throws)) as (Hv & Hr & Hs & Hi & _).
  fold h in Hv, Hr, Hs, Hi.
  unfold st. rewrite snapshot_full.
  split; [reflexivity|]. split; [reflexivity|]. split.
  - intros Hthr. cbv zeta. rewrite run_app.
    change (run [SongInfoCallback songInfo event] (run evs (initialWorld throws)))
      with (step (run evs (initialWorld throws)) (SongInfoCallback songInfo event)).
    destruct (songinfo_assigned_last (run evs (initialWorld throws)) songInfo event)
      as (Hok & _).
    rewrite run_throws in Hok.
    destruct (Hok Hthr) as (Hsong & _).
    rewrite snapshot_full. unfold fullPlayerState. simpl. now rewrite Hsong.
  - unfold fullPlayerState. simpl.
    split; [|split; [|split]]; intros Hnone.
    + rewrite (Hi Hnone). simpl. repeat split.
    + rewrite (Hv Hnone). now split.
    + now rewrite (Hr Hnone).
    + now rewrite (Hs Hnone).
Qed.

End ConnectionProperties.

(** ** Closed instances for connections and snapshots *)


(** The theorem of C3 with connections 1 and 2 live and connection 3
    opening after a seek, a volume change and a pushed payload that does not
    normalise. *)
Lemma track_change_clears_lyrics_witness :
  let w := twoSockets noneThrows in
  let evs := [Seeked 1%float; VolumeChangedIpc volume42Muted;
              SyncedLyricsCurrent unconvertibleIndex 5%float] in
  let w1 := @step exampleEngine w (SongInfoCallback someSong VideoSrcChanged) in
  (forall s, In s [1; 2] -> received w1 s = received w s ++ [videoChangedDelta someSong])
  /\ received (@run exampleEngine (evs ++ [Open 3]) w1) 3
     = received (@run exampleEngine evs w1) 3
       ++ [PlayerInfoMessage (fullPlayerState (hub (@run exampleEngine evs w1)));
           LyricsUnavailable].
Proof.
  intros w evs w1.
  destruct (@track_change_clears_lyrics exampleEngine w someSong evs 3)
    as (_ & Hfan & Hopen).
  split.
  - apply Hfan; [|reflexivity].
    simpl. repeat constructor; simpl; intuition discriminate.
  - exact (Hopen eq_refl).
Defined.


(** The theorem of C5 at the empty payload [{}], which lacks all three
    fields. *)
Lemma normalizeLyric_missing_fields_witness :
  exists l,
    @normalizeLyric exampleEngine (VObject []) None 7%float = Some l
    /\ Lyric.index l = None
    /\ Lyric.text l = []
    /\ Lyric.timeInMs l = 0%float
    /\ Lyric.duration l = 0%float
    /\ Lyric.timestamp l = 7%float.
Proof.
  destruct (@normalizeLyric_missing_fields exampleEngine (VObject []) None 7%float)
    as (_ & _ & Hall).
  exact (Hall eq_refl eq_refl eq_refl).
Defined.

(** The theorem of C6 with connections 1 and 2 live, and at a tick that
    says 37 seconds before the seek. *)
Lemma seek_is_broadcast_not_stored_witness :
  let w := twoSockets noneThrows in
  let w1 := @step exampleEngine w (Seeked 42%float) in
  hub w1 = hub w
  /\ received w1 1 = [positionChangedDelta 42%float]
  /\ received w1 2 = [positionChangedDelta 42%float]
  /\ PlayerState.position
       (snapshot (hub (@run exampleEngine
                         [SongInfoCallback someSong TimeChanged; Seeked 42%float] w)))
     = 37%float.
Proof.
  intros w w1.
  destruct (@seek_is_broadcast_not_stored exampleEngine w 42%float someSong TimeChanged)
    as (Hhub & _ & _ & Hpos & Hfan).
  assert (Hnd : NoDup (sockets (hub w))).
  { simpl. repeat constructor; simpl; intuition discriminate. }
  split; [exact Hhub|]. split; [|split].
  - apply (Hfan Hnd eq_refl 1). simpl. now left.
  - apply (Hfan Hnd eq_refl 2). simpl. right. now left.
  - exact (Hpos eq_refl).
Defined.

(** The theorem of C7 at a plain static text line. *)
Lemma normalizeLyric_isSynced_witness :
  exists l,
    @normalizeLyric exampleEngine staticLine None 7%float = Some l
    /\ Lyric.isSynced l = false.
Proof.
  destruct (@normalizeLyric_isSynced exampleEngine staticLine None 7%float)
    as (Hsome & Hsynced).
  destruct (proj2 Hsome eq_refl) as (l & Hl).
  exists l. split; [exact Hl|].
  exact (proj2 (Hsynced l Hl) eq_refl eq_refl).
Defined.

(** The theorem of C8 after a connection, a seek and a repeat change, and
    at a song-info callback that follows. *)
Lemma snapshot_derived_and_defaults_witness :
  let evs := [Open 1; Seeked 5%float; RepeatChangedIpc ALL] in
  let st := snapshot (hub (@run exampleEngine evs (initialWorld noneThrows))) in
  let st' := snapshot (hub (@run exampleEngine
                              (evs ++ [SongInfoCallback someSong PlayOrPaused])
                              (initialWorld noneThrows))) in
  (PlayerState.song st' = Some someSong /\ PlayerState.isPlaying st' = true)
  /\ (PlayerState.song st = None /\ PlayerState.isPlaying st = false
      /\ PlayerState.position st = 0%float)
  /\ (PlayerState.muted st = false /\ PlayerState.volume st = 100%float)
  /\ PlayerState.shuffle st = false.
Proof.
  intros evs st st'.
  destruct (@snapshot_derived_and_defaults exampleEngine noneThrows evs
              someSong PlayOrPaused)
    as (_ & _ & Hsong & Hnosong & Hvol & _ & Hshuffle).
  split; [exact (Hsong eq_refl)|].
  split; [exact (Hnosong eq_refl)|].
  split; [exact (Hvol eq_refl)|exact (Hshuffle eq_refl)].
Defined.
